(** * Air-traffic-controller simulator: scheduler, airspace manager, engine

    A shallow embedding of [air.cpp] and the properties of its three
    components:

    - [Scheduler]      the ready queue and its three-key comparator,
    - [MemoryManager]  the fixed-size airspace with its scan allocator,
    - [simulate]       the discrete-time loop tying both together.

    Conventions.  A C++ [int] is a [Z].  Signed overflow is undefined
    behaviour in C++ and is not modelled: the signed arithmetic of the
    source ([time++], [i + j], [freeCount++]) is arithmetic in [Z].  The two
    places where the source leaves signed arithmetic are written out: the
    unsigned ([size_t]) loop bound of [allocate], which wraps modulo 2^64,
    and the narrowing of [memory.size() + 1] to [int].  An access
    [memory[k]] outside the vector is undefined behaviour and surfaces as
    the outcome [OutOfBounds].

    The clock [time] of [simulate] and the clock [t] of its chart are
    such [int]s computed in [Z].  A statement that names a value of either
    clock is made for iterations, runs and charts whose clock values stay
    within [int] ([clock_fits], [event_clock_ok], [row_in_range]); there
    the sums in [Z] are the sums the code computes. *)

From Stdlib Require Import ZArith Lia Bool Sorted Permutation.
From stdpp Require Import base tactics option list strings.

Local Open Scope Z_scope.

(* ===================================================================== *)
(** ** Plane *)
(* ===================================================================== *)

(** [struct Plane]; the constructor's default argument is [e = false]. *)
Record Plane : Type := mkPlane {
  id : Z;
  arrivalTime : Z;
  fuelLevel : Z;
  size : Z;
  landingTime : Z;
  emergency : bool
}.

(** [Plane(i, at, fuel, s, lt)] with the defaulted emergency flag. *)
Definition Plane5 (i at_ fuel s lt : Z) : Plane := mkPlane i at_ fuel s lt false.

Definition INT_MIN : Z := - 2 ^ 31.
Definition INT_MAX : Z := 2 ^ 31 - 1.

Definition int_range (z : Z) : Prop := INT_MIN <= z <= INT_MAX.

(** Every field of a [Plane] is a C++ [int]. *)
Definition plane_wf (p : Plane) : Prop :=
  int_range (id p) /\ int_range (arrivalTime p) /\ int_range (fuelLevel p) /\
  int_range (size p) /\ int_range (landingTime p).

(* ===================================================================== *)
(** ** Scheduler *)
(* ===================================================================== *)

(** [Scheduler::compare]: the strict "goes before" test handed to
    [std::sort].  On [bool], [a.emergency > b.emergency] holds exactly when
    [a] is an emergency and [b] is not. *)
Definition compare (a b : Plane) : bool :=
  if negb (Bool.eqb (emergency a) (emergency b))
  then emergency a && negb (emergency b)
  else if negb (fuelLevel a =? fuelLevel b)
  then fuelLevel a <? fuelLevel b
  else landingTime a <? landingTime b.

(** [Scheduler::addPlane]: [push_back]. *)
Definition addPlane (readyQueue : list Plane) (p : Plane) : list Plane :=
  readyQueue ++ [p].

(** What [std::sort(first, last, comp)] guarantees of its result: it is a
    rearrangement of the input in which no later element goes strictly
    before an earlier one.  The order of equivalent elements is left
    open by the standard. *)
Definition not_after (a b : Plane) : Prop := compare b a = false.

Record sort_contract (srt : list Plane -> list Plane) : Prop := {
  srt_perm : forall l, Permutation (srt l) l;
  srt_sorted : forall l, StronglySorted not_after (srt l)
}.

(** The model of [std::sort] used to run the code: insertion sort, placing
    an element in front of the first one it strictly precedes. *)
Fixpoint insert_plane (p : Plane) (l : list Plane) : list Plane :=
  match l with
  | [] => [p]
  | q :: l' => if compare p q then p :: q :: l' else q :: insert_plane p l'
  end.

Fixpoint sort (l : list Plane) : list Plane :=
  match l with
  | [] => []
  | p :: l' => insert_plane p (sort l')
  end.

(** [Plane(-1, 0, 0, 0, 0)], returned for an empty queue. *)
Definition sentinel : Plane := Plane5 (-1) 0 0 0 0.

(** [Scheduler::getNextPlane] over any sorting routine: the returned pair is
    the plane handed back and the queue left behind.  [front()] of an empty
    vector cannot arise after the emptiness test, since sorting keeps the
    length; that branch repeats the sentinel. *)
Definition getNextPlane_with (srt : list Plane -> list Plane)
    (readyQueue : list Plane) : Plane * list Plane :=
  match readyQueue with
  | [] => (sentinel, readyQueue)
  | _ :: _ =>
      match srt readyQueue with
      | p :: rest => (p, rest)
      | [] => (sentinel, [])
      end
  end.

Definition getNextPlane : list Plane -> Plane * list Plane :=
  getNextPlane_with sort.

(** The order of the specification, in its own words: an emergency plane
    precedes a non-emergency one; with equal emergency status the lower
    fuel level precedes; with equal fuel level too, the shorter landing
    time precedes. *)
Definition precedes (a b : Plane) : Prop :=
  (emergency a = true /\ emergency b = false) \/
  (emergency a = emergency b /\ fuelLevel a < fuelLevel b) \/
  (emergency a = emergency b /\ fuelLevel a = fuelLevel b /\
   landingTime a < landingTime b).

(* ===================================================================== *)
(** ** Outcomes of the imperative code *)
(* ===================================================================== *)

(** A run of a fragment either completes with a value, or indexes the
    airspace vector outside its bounds (undefined behaviour in C++), or
    exceeds the iteration budget given to the model of one of its loops. *)
Inductive outcome (A : Type) : Type :=
| Done (a : A)
| OutOfBounds
| OutOfFuel.

Arguments Done {A} a.
Arguments OutOfBounds {A}.
Arguments OutOfFuel {A}.

#[global] Instance outcome_bind : MBind outcome := fun A B k m =>
  match m with
  | Done a => k a
  | OutOfBounds => OutOfBounds
  | OutOfFuel => OutOfFuel
  end.

(* ===================================================================== *)
(** ** MemoryManager *)
(* ===================================================================== *)

(** Conversion of an integer to [size_t] (64 bits, wrapping). *)
Definition to_size_t (z : Z) : Z := z mod 2 ^ 64.

(** Narrowing of an integer to [int] (32 bits, two's complement). *)
Definition to_int (z : Z) : Z := (z + 2 ^ 31) mod 2 ^ 32 - 2 ^ 31.

(** [memory[k]] as an rvalue; the [int] index is converted to [size_t], so
    a negative index is out of bounds as well. *)
Definition mem_read (memory : list Z) (k : Z) : outcome Z :=
  if k <? 0 then OutOfBounds
  else match memory !! Z.to_nat k with
       | Some v => Done v
       | None => OutOfBounds
       end.

(** [memory[k] = v]. *)
Definition mem_write (memory : list Z) (k v : Z) : outcome (list Z) :=
  if k <? 0 then OutOfBounds
  else match memory !! Z.to_nat k with
       | Some _ => Done (<[Z.to_nat k := v]> memory)
       | None => OutOfBounds
       end.

(** [MemoryManager(int size) : memory(size, 0)]. *)
Definition MemoryManager (n : nat) : list Z := replicate n 0.

(** [while (j < size && memory[i + j] == 0) j++;] started at [j]; the value
    is the final [j]. *)
Fixpoint free_run (fuel : nat) (memory : list Z) (size i j : Z) : outcome Z :=
  if j <? size then
    x ← mem_read memory (i + j);
    if x =? 0 then
      match fuel with
      | O => OutOfFuel
      | S fuel' => free_run fuel' memory size i (j + 1)
      end
    else Done j
  else Done j.

(** The bound [memory.size() - size] of the scan: [size] is converted to
    [size_t] and the subtraction wraps. *)
Definition scan_bound (memory : list Z) (size : Z) : Z :=
  to_size_t (Z.of_nat (length memory) - to_size_t size).

(** [for (int i = 0; i <= memory.size() - size; ++i) { ... }], from [i] on,
    threading [(bestStart, bestSize)].  The comparison is unsigned. *)
Fixpoint scan (fuel : nat) (memory : list Z) (size i bestStart bestSize : Z)
    : outcome (Z * Z) :=
  if to_size_t i <=? scan_bound memory size then
    match fuel with
    | O => OutOfFuel
    | S fuel' =>
        j ← free_run (Z.to_nat size) memory size i 0;
        if (j =? size) && (size <? bestSize)
        then scan fuel' memory size (i + 1) i size
        else scan fuel' memory size (i + 1) bestStart bestSize
    end
  else Done (bestStart, bestSize).

(** [for (int i = start; i < stop; ++i) memory[i] = v;] *)
Fixpoint fill (fuel : nat) (memory : list Z) (v i stop : Z) : outcome (list Z) :=
  if i <? stop then
    match fuel with
    | O => OutOfFuel
    | S fuel' =>
        memory' ← mem_write memory i v;
        fill fuel' memory' v (i + 1) stop
    end
  else Done memory.

(** [MemoryManager::allocate]: the returned pair is the [int] result and
    the airspace afterwards.  The scan runs at most [bound + 1] times. *)
Definition allocate (memory : list Z) (size : Z) : outcome (Z * list Z) :=
  '(bestStart, _) ←
     scan (Z.to_nat (scan_bound memory size + 1)) memory size 0
          (-1) (to_int (Z.of_nat (length memory) + 1));
  if negb (bestStart =? -1) then
    memory' ← fill (Z.to_nat size) memory 1 bestStart (bestStart + size);
    Done (bestStart, memory')
  else Done (bestStart, memory).

(** [MemoryManager::deallocate]. *)
Definition deallocate (memory : list Z) (start size : Z) : outcome (list Z) :=
  fill (Z.to_nat size) memory 0 start (start + size).

(** [MemoryManager::isSafe]: the range-for counts the zero cells. *)
Definition isSafe (memory : list Z) (reqSize : Z) : bool :=
  let freeCount := fold_left (fun c m => if m =? 0 then c + 1 else c) memory 0 in
  freeCount >=? reqSize.

(** The number of free units, as the specification counts them. *)
Definition free_units (memory : list Z) : Z :=
  Z.of_nat (length (filter (fun m => m = 0) memory)).

(** Cells [[i, i + d)] exist and are all free. *)
Definition free_at (memory : list Z) (i d : Z) : Prop :=
  0 <= i /\ forall k, 0 <= k < d -> memory !! Z.to_nat (i + k) = Some 0.

(* ===================================================================== *)
(** ** simulate *)
(* ===================================================================== *)

(** The locals of [simulate] that survive an iteration.  [gantt] holds
    [(id, landingTime)] pairs, as in the source. *)
Record SimState : Type := mkState {
  st_incoming : list Plane;
  st_readyQueue : list Plane;
  st_memory : list Z;
  st_time : Z;
  st_gantt : list (Z * Z)
}.

(** What one iteration writes to the console, with the time it prints. *)
Inductive Event : Type :=
| NoPlanes (t : Z)                (* "Time t: No planes to schedule" *)
| Unsafe (t : Z) (p : Plane)      (* "Unsafe to allocate ... Delaying." *)
| NoSpace (t : Z) (p : Plane)     (* "No space in airspace ... Delayed." *)
| Landing (t : Z) (p : Plane).    (* "Plane id is landing." *)

(** [Scheduler scheduler; MemoryManager memory(20); int time = 0;] *)
Definition init (incoming : list Plane) : SimState :=
  mkState incoming [] (MemoryManager 20) 0 [].

(** The admission loop: every plane of [incoming] with
    [arrivalTime <= time] is pushed to the queue and erased, in order.
    The result is [(incoming, readyQueue)] afterwards. *)
Fixpoint move_arrived (time : Z) (incoming readyQueue : list Plane)
    : list Plane * list Plane :=
  match incoming with
  | [] => ([], readyQueue)
  | p :: rest =>
      if arrivalTime p <=? time
      then move_arrived time rest (addPlane readyQueue p)
      else let '(incoming', readyQueue') := move_arrived time rest readyQueue in
           (p :: incoming', readyQueue')
  end.

(** The loop test [!incoming.empty() || !scheduler.readyQueue.empty()]. *)
Definition running (st : SimState) : bool :=
  negb (bool_decide (st_incoming st = [])) ||
  negb (bool_decide (st_readyQueue st = [])).

(** One iteration of the [while] loop.  The weather delay and the sleeps
    only print and wait; they are left out.  [time++] and
    [time += current.landingTime] are sums in [Z]: they are the code's
    as long as the result is an [int] (see [clock_fits] and
    [event_clock_ok]). *)
Definition sim_step (st : SimState) : outcome (Event * SimState) :=
  let time := st_time st in
  let memory := st_memory st in
  let '(incoming, queue) := move_arrived time (st_incoming st) (st_readyQueue st) in
  let '(current, queue) := getNextPlane queue in
  if id current =? -1 then
    Done (NoPlanes time, mkState incoming queue memory (time + 1) (st_gantt st))
  else if negb (isSafe memory (size current)) then
    Done (Unsafe time current,
          mkState incoming (addPlane queue current) memory (time + 1) (st_gantt st))
  else
    '(memIndex, memory) ← allocate memory (size current);
    if memIndex =? -1 then
      Done (NoSpace time current,
            mkState incoming (addPlane queue current) memory (time + 1) (st_gantt st))
    else
      memory ← deallocate memory memIndex (size current);
      Done (Landing time current,
            mkState incoming queue memory (time + landingTime current)
                    (st_gantt st ++ [(id current, landingTime current)])).

(** At most [n] iterations of the loop: the console events and the state
    reached, which is the state at the start of the next iteration or the
    one in which the loop test failed. *)
Fixpoint sim_steps (n : nat) (st : SimState) : outcome (list Event * SimState) :=
  match n with
  | O => Done ([], st)
  | S n' =>
      if running st then
        '(e, st') ← sim_step st;
        '(es, st'') ← sim_steps n' st';
        Done (e :: es, st'')
      else Done ([], st)
  end.

(** The Gantt chart printed after the loop: rows
    [(planeID, t, t + duration)] with [t] restarted at 0.  [t + duration]
    is a sum in [Z]: it is the code's as long as the rows are [int]s (see
    [row_in_range]). *)
Fixpoint gantt_rows (t : Z) (gantt : list (Z * Z)) : list (Z * Z * Z) :=
  match gantt with
  | [] => []
  | (planeID, duration) :: gantt' =>
      (planeID, t, t + duration) :: gantt_rows (t + duration) gantt'
  end.

(** [simulate]: the events of the run and the chart, when the loop ends
    within [fuel] iterations. *)
Definition simulate (fuel : nat) (incoming : list Plane)
    : outcome (list Event * list (Z * Z * Z)) :=
  '(es, st) ← sim_steps fuel (init incoming);
  if running st then OutOfFuel
  else Done (es, gantt_rows 0 (st_gantt st)).

(** The allocations that took place, as [(id, start, end)] in simulated
    time, read off the console events. *)
Definition served (es : list Event) : list (Z * Z * Z) :=
  omap (fun e => match e with
                 | Landing t p => Some (id p, t, t + landingTime p)
                 | _ => None
                 end) es.

(** Planes not yet released. *)
Definition pending (st : SimState) : nat :=
  length (st_incoming st) + length (st_readyQueue st).

(** The planes of a state are C++ objects and the airspace is a vector
    whose size, plus one, is an [int]. *)
Definition state_wf (st : SimState) : Prop :=
  Forall plane_wf (st_incoming st) /\ Forall plane_wf (st_readyQueue st) /\
  Z.of_nat (length (st_memory st)) < INT_MAX.

(** The entry a landing adds to [gantt]. *)
Definition gantt_entry (e : Event) : list (Z * Z) :=
  match e with
  | Landing _ p => [(id p, landingTime p)]
  | _ => []
  end.

Definition normalPlanes : list Plane :=
  [Plane5 1 0 5 4 3; Plane5 2 1 4 3 2; Plane5 3 2 6 5 4; Plane5 4 3 1 2 1;
   Plane5 5 4 2 3 3].

Definition emergencyPlanes : list Plane :=
  [Plane5 1 0 5 4 3; Plane5 2 1 4 3 2; mkPlane 6 1 1 2 1 true;
   Plane5 3 2 6 5 4; Plane5 5 4 1 3 3].

Definition deadlockScenario : list Plane :=
  [Plane5 7 0 3 8 3; Plane5 8 1 2 8 2; Plane5 9 2 1 5 2].

(** The text [printPlaneTable] puts in the Priority column of a plane. *)
Definition priority_label (p : Plane) : string :=
  if emergency p then "Emergency"
  else if fuelLevel p <=? 2 then "High" else "Normal".

(** The planes that landed, in order, read off the console events. *)
Definition landed (es : list Event) : list Plane :=
  omap (fun e => match e with Landing _ p => Some p | _ => None end) es.

(** The iterations that did not land a plane: each printed one of the
    three "no progress" lines. *)
Definition waits (es : list Event) : list Event :=
  filter (fun e => gantt_entry e = []) es.

(** The sum of the landing times of a list of planes. *)
Definition total_landing (ps : list Plane) : Z :=
  foldr (fun p acc => landingTime p + acc) 0 ps.

(** The latest arrival time among the planes, and 0 for none. *)
Definition last_arrival (ps : list Plane) : Z :=
  foldr (fun p acc => Z.max (arrivalTime p) acc) 0 ps.

(** What the console line of an iteration tells about the [size] of the
    plane it names. *)
Definition event_by_size (e : Event) : Prop :=
  match e with
  | NoPlanes _ => True
  | Unsafe _ p => id p <> -1 /\ 20 < size p
  | NoSpace _ p => id p <> -1 /\ size p < 0
  | Landing _ p => id p <> -1 /\ 0 <= size p <= 20
  end.

(** A plane the engine can serve: its [id] is not the sentinel's, it fits
    the airspace of 20 cells, and it does not turn the clock back. *)
Definition servable (p : Plane) : Prop :=
  plane_wf p /\ id p <> -1 /\ 0 <= size p <= 20 /\ 0 <= landingTime p.

(** The plane an iteration names had arrived by the time it prints. *)
Definition event_after_arrival (e : Event) : Prop :=
  match e with
  | NoPlanes _ => True
  | Unsafe t p | NoSpace t p | Landing t p => arrivalTime p <= t
  end.

(** The clock an iteration prints. *)
Definition event_time (e : Event) : Z :=
  match e with
  | NoPlanes t | Unsafe t _ | NoSpace t _ | Landing t _ => t
  end.

(** The clock an iteration leaves behind: [time += landingTime] after a
    landing, [time++] otherwise. *)
Definition event_time_after (e : Event) : Z :=
  match e with
  | Landing t p => t + landingTime p
  | NoPlanes t | Unsafe t _ | NoSpace t _ => t + 1
  end.

(** The clock update of an iteration did not leave [int]. *)
Definition event_clock_ok (e : Event) : Prop :=
  int_range (event_time e) /\ int_range (event_time_after e).

(** Whatever the next iteration does, its clock update does not leave
    [int]: the clock is an [int] below [INT_MAX], and no waiting plane has
    a landing time that carries it out of [int]. *)
Definition clock_fits (st : SimState) : Prop :=
  INT_MIN <= st_time st < INT_MAX /\
  Forall (fun p => int_range (st_time st + landingTime p))
         (st_incoming st ++ st_readyQueue st).

(** The start and the end of a chart row are [int]s. *)
Definition row_in_range (r : Z * Z * Z) : Prop :=
  int_range r.1.2 /\ int_range r.2.

(* ===================================================================== *)
(** * Properties *)
(* ===================================================================== *)

(** ** The comparator and the ready queue *)

Lemma compare_precedes (a b : Plane) : compare a b = true <-> precedes a b.
Proof.
  unfold compare, precedes.
  destruct (emergency a), (emergency b); simpl;
    destruct (Z.eqb_spec (fuelLevel a) (fuelLevel b)); simpl;
    rewrite ?Z.ltb_lt; intuition (try congruence; try lia).
Qed.

Lemma precedes_asym (a b : Plane) : precedes a b -> ~ precedes b a.
Proof.
  unfold precedes. intros H1 H2.
  destruct (emergency a), (emergency b); intuition (try congruence; try lia).
Qed.

Lemma compare_asym (a b : Plane) : compare a b = true -> compare b a = false.
Proof.
  intros H. apply not_true_is_false. rewrite compare_precedes.
  apply precedes_asym. by apply compare_precedes.
Qed.

Lemma not_after_iff (a b : Plane) : not_after a b <-> ~ precedes b a.
Proof.
  unfold not_after. rewrite <- compare_precedes.
  destruct (compare b a); split; congruence.
Qed.

(** "Not after" is the non-strict side of a strict weak order. *)
Lemma not_after_trans (a b c : Plane) :
  not_after a b -> not_after b c -> not_after a c.
Proof.
  rewrite !not_after_iff. unfold precedes. intros H1 H2 H3.
  destruct (emergency a), (emergency b), (emergency c);
    destruct (Z.lt_total (fuelLevel a) (fuelLevel b)) as [?|[?|?]];
    destruct (Z.lt_total (fuelLevel b) (fuelLevel c)) as [?|[?|?]];
    intuition (try congruence; try lia).
Qed.

Lemma insert_plane_perm (p : Plane) (l : list Plane) :
  Permutation (insert_plane p l) (p :: l).
Proof.
  induction l as [|q l IH]; simpl; [done|].
  destruct (compare p q); [done|].
  rewrite IH. apply perm_swap.
Qed.

Lemma sort_perm (l : list Plane) : Permutation (sort l) l.
Proof.
  induction l as [|p l IH]; simpl; [done|].
  rewrite insert_plane_perm. by constructor.
Qed.

Lemma insert_plane_sorted (p : Plane) (l : list Plane) :
  StronglySorted not_after l -> StronglySorted not_after (insert_plane p l).
Proof.
  induction l as [|q l IH]; simpl; intros Hs.
  - repeat constructor.
  - apply StronglySorted_inv in Hs as [Hl Hq].
    destruct (compare p q) eqn:Hpq.
    + constructor; [by constructor|].
      constructor; [by apply compare_asym|].
      eapply Forall_impl; [exact Hq|].
      intros x Hx. eapply not_after_trans; [|exact Hx]. by apply compare_asym.
    + constructor; [by apply IH|].
      rewrite insert_plane_perm. by constructor.
Qed.

Lemma sort_sorted (l : list Plane) : StronglySorted not_after (sort l).
Proof.
  induction l as [|p l IH]; simpl; [constructor|].
  by apply insert_plane_sorted.
Qed.

(** The insertion sort meets the contract of [std::sort]. *)
Lemma sort_meets_contract : sort_contract sort.
Proof. split; [apply sort_perm | apply sort_sorted]. Qed.

Section AnySort.
Variable srt : list Plane -> list Plane.
Hypothesis srt_ok : sort_contract srt.

(** Whatever conforming [std::sort] is linked in, a non-empty queue gives
    up one plane that no queued plane precedes, and keeps the others. *)
Lemma getNextPlane_with_min (readyQueue : list Plane) :
  readyQueue <> [] ->
  exists p rest,
    getNextPlane_with srt readyQueue = (p, rest) /\
    Permutation (p :: rest) readyQueue /\
    forall x, x ∈ readyQueue -> ~ precedes x p.
Proof using srt_ok.
  intros Hne. unfold getNextPlane_with.
  destruct readyQueue as [|q0 q]; [done|].
  pose proof (srt_perm _ srt_ok (q0 :: q)) as Hperm.
  pose proof (srt_sorted _ srt_ok (q0 :: q)) as Hsorted.
  destruct (srt (q0 :: q)) as [|p rest].
  - by apply Permutation_nil_cons in Hperm.
  - exists p, rest. split; [done|]. split; [done|].
    intros x Hx. rewrite <- Hperm in Hx.
    apply StronglySorted_inv in Hsorted as [_ Hall].
    apply elem_of_cons in Hx as [->|Hx].
    + intros H. by apply (precedes_asym p p).
    + apply not_after_iff. rewrite Forall_forall in Hall. by apply Hall.
Qed.
End AnySort.

Lemma getNextPlane_nil : getNextPlane [] = (sentinel, []).
Proof. reflexivity. Qed.

(** C1.  From a non-empty ready queue, [getNextPlane] hands back a plane
    that is minimal in the three-key order (no queued plane is an emergency
    while it is not, or has the same emergency status and less fuel, or the
    same status and fuel and a shorter landing time); in particular it is
    an emergency plane whenever the queue holds one.  The plane is taken
    out once and the queue left behind holds exactly the other planes,
    unchanged. *)
Theorem getNextPlane_minimal (readyQueue : list Plane) :
  readyQueue <> [] ->
  exists p rest,
    getNextPlane readyQueue = (p, rest) /\
    Permutation (p :: rest) readyQueue /\
    length rest = Nat.pred (length readyQueue) /\
    (forall x, x ∈ readyQueue -> ~ precedes x p) /\
    (forall x, x ∈ readyQueue -> emergency x = true -> emergency p = true).
Proof.
  intros Hne.
  destruct (getNextPlane_with_min sort sort_meets_contract readyQueue Hne)
    as (p & rest & Hget & Hperm & Hmin).
  exists p, rest. repeat split; try done.
  - apply Permutation_length in Hperm. simpl in Hperm. lia.
  - intros x Hx Hex. specialize (Hmin x Hx).
    destruct (emergency p) eqn:Hp; [done|].
    exfalso. apply Hmin. left. done.
Qed.

Lemma getNextPlane_minimal_witness :
  emergencyPlanes <> [] /\
  exists p rest,
    getNextPlane emergencyPlanes = (p, rest) /\
    Permutation (p :: rest) emergencyPlanes /\
    length rest = Nat.pred (length emergencyPlanes) /\
    (forall x, x ∈ emergencyPlanes -> ~ precedes x p) /\
    (forall x, x ∈ emergencyPlanes -> emergency x = true -> emergency p = true).
Proof.
  split; [discriminate|].
  apply (getNextPlane_minimal emergencyPlanes). discriminate.
Defined.

(** ** The airspace: reads, writes and the run test *)

Lemma mem_read_Done (memory : list Z) (k v : Z) :
  mem_read memory k = Done v <-> 0 <= k /\ memory !! Z.to_nat k = Some v.
Proof.
  unfold mem_read. destruct (Z.ltb_spec k 0).
  - split; [done | lia].
  - destruct (memory !! Z.to_nat k); split; intros; try done.
    + split; [done | congruence].
    + destruct H0 as [_ H0]. congruence.
    + by destruct H0.
Qed.

Lemma mem_read_not_fuel (memory : list Z) (k : Z) : mem_read memory k <> OutOfFuel.
Proof.
  unfold mem_read. destruct (k <? 0); [done|]. by destruct (memory !! Z.to_nat k).
Qed.

Lemma mem_read_outside (memory : list Z) (k : Z) :
  Z.of_nat (length memory) <= k -> mem_read memory k = OutOfBounds.
Proof.
  intros Hk. unfold mem_read. destruct (k <? 0); [done|].
  rewrite (lookup_ge_None_2 memory (Z.to_nat k)); [done | lia].
Qed.

Lemma mem_write_inside (memory : list Z) (k v : Z) :
  0 <= k < Z.of_nat (length memory) ->
  mem_write memory k v = Done (<[Z.to_nat k := v]> memory).
Proof.
  intros Hk. unfold mem_write. destruct (Z.ltb_spec k 0); [lia|].
  destruct (lookup_lt_is_Some_2 memory (Z.to_nat k)) as [x ->]; [lia | done].
Qed.

(** The budget [size - j] is enough for the run test. *)
Lemma free_run_not_fuel (memory : list Z) (d i : Z) (fuel : nat) (j : Z) :
  d - j <= Z.of_nat fuel -> free_run fuel memory d i j <> OutOfFuel.
Proof.
  revert j. induction fuel as [|fuel IH]; intros j Hf; simpl.
  - destruct (Z.ltb_spec j d); [lia | done].
  - destruct (Z.ltb_spec j d); [|done].
    pose proof (mem_read_not_fuel memory (i + j)) as Hr.
    destruct (mem_read memory (i + j)) as [x| |]; simpl; try done.
    destruct (x =? 0); [|done]. apply IH. lia.
Qed.

(** What a completed run test says about the cells it passed over. *)
Lemma free_run_sound (memory : list Z) (d i : Z) (fuel : nat) (j j' : Z) :
  free_run fuel memory d i j = Done j' -> 0 <= i -> 0 <= j ->
  j <= j' /\ (j <= d -> j' <= d) /\
  (forall k, j <= k < j' -> memory !! Z.to_nat (i + k) = Some 0) /\
  (j' < d -> exists v, memory !! Z.to_nat (i + j') = Some v /\ v <> 0).
Proof.
  revert j. induction fuel as [|fuel IH]; intros j; simpl.
  - destruct (Z.ltb_spec j d).
    + destruct (mem_read memory (i + j)) as [x| |] eqn:Hr; simpl; try done.
      destruct (Z.eqb_spec x 0); [done|].
      intros [= <-] Hi Hj. apply mem_read_Done in Hr as [_ Hr].
      repeat split; try lia. intros _. by exists x.
    + intros [= <-] Hi Hj. repeat split; lia.
  - destruct (Z.ltb_spec j d).
    + destruct (mem_read memory (i + j)) as [x| |] eqn:Hr; simpl; try done.
      apply mem_read_Done in Hr as [_ Hr].
      destruct (Z.eqb_spec x 0) as [->|Hx].
      * intros Hrun Hi Hj.
        destruct (IH (j + 1) Hrun) as (H1 & H2 & H3 & H4); [lia..|].
        repeat split; try lia; [|done].
        intros k Hk. destruct (decide (k = j)) as [->|]; [done|].
        apply H3. lia.
      * intros [= <-] Hi Hj. repeat split; try lia. intros _. by exists x.
    + intros [= <-] Hi Hj. repeat split; lia.
Qed.

(** A run test that stays inside the vector completes. *)
Lemma free_run_total (memory : list Z) (d i : Z) (fuel : nat) (j : Z) :
  d - j <= Z.of_nat fuel -> 0 <= i -> 0 <= j ->
  i + d <= Z.of_nat (length memory) ->
  exists j', free_run fuel memory d i j = Done j'.
Proof.
  revert j. induction fuel as [|fuel IH]; intros j Hf Hi Hj Hcap; simpl.
  - destruct (Z.ltb_spec j d); [lia | by eexists].
  - destruct (Z.ltb_spec j d); [|by eexists].
    unfold mem_read. destruct (Z.ltb_spec (i + j) 0); [lia|].
    destruct (lookup_lt_is_Some_2 memory (Z.to_nat (i + j))) as [x ->]; [lia|].
    simpl. destruct (x =? 0); [|by eexists]. apply IH; lia.
Qed.

(** For a non-positive size the run test does not look at the vector. *)
Lemma free_run_nonpos (memory : list Z) (d i : Z) (fuel : nat) :
  d <= 0 -> free_run fuel memory d i 0 = Done 0.
Proof.
  intros Hd. destruct fuel; simpl; by destruct (Z.ltb_spec 0 d); [lia|].
Qed.

Lemma free_at_inside (memory : list Z) (i d : Z) :
  0 < d -> free_at memory i d -> 0 <= i /\ i + d <= Z.of_nat (length memory).
Proof.
  intros Hd [Hi Hfree]. split; [done|].
  specialize (Hfree (d - 1)). apply lookup_lt_Some in Hfree; lia.
Qed.

(** The run test at [i] answers [size] exactly when the run at [i] is
    free. *)
Lemma free_run_free_at (memory : list Z) (d i : Z) :
  0 <= i -> 0 <= d ->
  free_run (Z.to_nat d) memory d i 0 = Done d <-> free_at memory i d.
Proof.
  intros Hi Hd. split.
  - intros Hrun. split; [done|].
    apply free_run_sound in Hrun as (_ & _ & H & _); [done | lia..].
  - intros Hfree.
    destruct (decide (d = 0)) as [->|Hd0]; [by apply free_run_nonpos|].
    pose proof (free_at_inside memory i d ltac:(lia) Hfree) as [_ Hcap].
    destruct (free_run_total memory d i (Z.to_nat d) 0) as [j' Hrun]; [lia..|].
    rewrite Hrun. f_equal.
    apply free_run_sound in Hrun as (H0 & Hle & _ & Hstop); [|lia..].
    destruct (decide (j' = d)); [done|].
    destruct Hstop as (v & Hv & Hv0); [lia|].
    destruct Hfree as [_ Hfree]. rewrite Hfree in Hv; [|lia]. congruence.
Qed.

(** A run test that would have to leave the vector either stops early on
    an occupied cell or reads out of bounds. *)
Lemma free_run_over (memory : list Z) (d i : Z) :
  0 <= i -> 0 < d -> Z.of_nat (length memory) < i + d ->
  free_run (Z.to_nat d) memory d i 0 = OutOfBounds \/
  exists j', free_run (Z.to_nat d) memory d i 0 = Done j' /\ j' <> d /\
             0 <= j' /\ i + j' < Z.of_nat (length memory).
Proof.
  intros Hi Hd Hover.
  pose proof (free_run_not_fuel memory d i (Z.to_nat d) 0 ltac:(lia)) as Hnf.
  destruct (free_run (Z.to_nat d) memory d i 0) as [j'| |] eqn:Hrun;
    [right | by left | done].
  exists j'. split; [done|].
  apply free_run_sound in Hrun as (H0 & Hle & Hcells & Hstop); [|lia..].
  destruct (decide (j' = d)) as [->|Hne].
  - specialize (Hcells (d - 1)).
    apply lookup_lt_Some in Hcells; lia.
  - split; [done|]. split; [lia|]. destruct Hstop as (v & Hv & _); [lia|].
    apply lookup_lt_Some in Hv. lia.
Qed.

(** ** The airspace: filling a range *)

Lemma fill_empty (memory : list Z) (fuel : nat) (v i stop : Z) :
  stop <= i -> fill fuel memory v i stop = Done memory.
Proof. intros H. destruct fuel; simpl; by destruct (Z.ltb_spec i stop); [lia|]. Qed.

Lemma fill_spec (v stop : Z) (fuel : nat) (memory : list Z) (i : Z) :
  stop - i <= Z.of_nat fuel -> 0 <= i -> stop <= Z.of_nat (length memory) ->
  exists memory',
    fill fuel memory v i stop = Done memory' /\
    length memory' = length memory /\
    forall k : nat,
      memory' !! k =
      if bool_decide (i <= Z.of_nat k < stop) then Some v else memory !! k.
Proof.
  revert memory i. induction fuel as [|fuel IH]; intros memory i Hf Hi Hcap.
  - rewrite fill_empty; [|lia]. exists memory. repeat split.
    intros k. by rewrite bool_decide_eq_false_2; [|lia].
  - simpl. destruct (Z.ltb_spec i stop).
    + rewrite mem_write_inside; [|lia]. simpl.
      destruct (IH (<[Z.to_nat i := v]> memory) (i + 1)) as (m' & Hfill & Hlen & Hget);
        [lia | lia | rewrite length_insert; lia |].
      exists m'. split; [done|]. split; [by rewrite Hlen, length_insert|].
      intros k. rewrite Hget.
      destruct (decide (Z.of_nat k = i)) as [Hk|Hk].
      * rewrite bool_decide_eq_false_2; [|lia].
        rewrite bool_decide_eq_true_2; [|lia].
        replace (Z.to_nat i) with k by lia.
        apply list_lookup_insert_eq. lia.
      * rewrite list_lookup_insert_ne; [|lia].
        destruct (decide (i <= Z.of_nat k < stop)).
        -- rewrite !bool_decide_eq_true_2; [done | lia..].
        -- rewrite !bool_decide_eq_false_2; [done | lia..].
    + exists memory. repeat split.
      intros k. by rewrite bool_decide_eq_false_2; [|lia].
Qed.

(** Filling a range, of any sign, that is free (hence inside the vector). *)
Lemma fill_run (memory : list Z) (v s d : Z) :
  free_at memory s d ->
  exists memory',
    fill (Z.to_nat d) memory v s (s + d) = Done memory' /\
    length memory' = length memory /\
    forall k : nat,
      memory' !! k =
      if bool_decide (s <= Z.of_nat k < s + d) then Some v else memory !! k.
Proof.
  intros Hfree. destruct (Z.le_gt_cases d 0) as [Hd|Hd].
  - rewrite fill_empty; [|lia]. exists memory. repeat split.
    intros k. by rewrite bool_decide_eq_false_2; [|lia].
  - destruct (free_at_inside memory s d) as [Hs Hcap]; [lia | done |].
    apply fill_spec; lia.
Qed.

(** Freeing a range that was free before it was marked gives the old
    layout back. *)
Lemma fill_undo (memory memory' : list Z) (s d : Z) :
  free_at memory s d ->
  fill (Z.to_nat d) memory 1 s (s + d) = Done memory' ->
  fill (Z.to_nat d) memory' 0 s (s + d) = Done memory.
Proof.
  intros Hfree Hfill.
  destruct (fill_run memory 1 s d Hfree) as (m1 & Hm1 & Hlen1 & Hget1).
  rewrite Hm1 in Hfill. injection Hfill as <-.
  destruct (Z.le_gt_cases d 0) as [Hd|Hd].
  - rewrite fill_empty in Hm1 by lia. injection Hm1 as <-.
    by rewrite fill_empty by lia.
  - destruct (free_at_inside memory s d) as [Hs Hcap]; [lia | done |].
    destruct (fill_spec 0 (s + d) (Z.to_nat d) m1 s) as (m2 & Hm2 & Hlen2 & Hget2);
      [lia | lia | rewrite Hlen1; lia |].
    rewrite Hm2. f_equal. apply list_eq. intros k.
    rewrite Hget2, Hget1. case_bool_decide as Hk; [|done].
    destruct Hfree as [_ Hfree]. specialize (Hfree (Z.of_nat k - s)).
    replace (Z.to_nat (s + (Z.of_nat k - s))) with k in Hfree by lia.
    symmetry. apply Hfree. lia.
Qed.

(** ** The airspace: the scan *)

Lemma to_size_t_small (z : Z) : 0 <= z < 2 ^ 64 -> to_size_t z = z.
Proof. intros H. unfold to_size_t. by apply Z.mod_small. Qed.

(** With [size] no larger than the vector the unsigned bound is the
    difference the source means. *)
Lemma scan_bound_fits (memory : list Z) (d : Z) :
  - 2 ^ 63 <= d <= Z.of_nat (length memory) ->
  Z.of_nat (length memory) < 2 ^ 63 ->
  scan_bound memory d = Z.of_nat (length memory) - d.
Proof.
  intros Hd Hcap. unfold scan_bound, to_size_t.
  change (2 ^ 64) with 18446744073709551616.
  change (2 ^ 63) with 9223372036854775808 in *.
  Z.div_mod_to_equations. lia.
Qed.

(** With [size] larger than the vector the subtraction wraps around. *)
Lemma scan_bound_wraps (memory : list Z) (d : Z) :
  Z.of_nat (length memory) < d -> d < 2 ^ 63 ->
  scan_bound memory d = 2 ^ 64 + Z.of_nat (length memory) - d.
Proof.
  intros Hd Hcap. unfold scan_bound, to_size_t.
  change (2 ^ 64) with 18446744073709551616.
  change (2 ^ 63) with 9223372036854775808 in *.
  Z.div_mod_to_equations. lia.
Qed.

Lemma to_int_small (z : Z) : int_range z -> to_int z = z.
Proof.
  unfold int_range, INT_MIN, INT_MAX, to_int. intros H.
  change (2 ^ 31) with 2147483648 in *. change (2 ^ 32) with 4294967296.
  Z.div_mod_to_equations. lia.
Qed.

(** Whatever the scan returns as [bestStart] is either the value it was
    started with or an index at which the run test answered [size]. *)
Lemma scan_sound (memory : list Z) (d : Z) (fuel : nat) (i bs bz s bz' : Z) :
  scan fuel memory d i bs bz = Done (s, bz') -> 0 <= i ->
  s = bs \/ (i <= s /\ free_run (Z.to_nat d) memory d s 0 = Done d).
Proof.
  revert i bs bz. induction fuel as [|fuel IH]; intros i bs bz; simpl.
  - destruct (to_size_t i <=? scan_bound memory d); [done|].
    intros [= <- <-] _. by left.
  - destruct (to_size_t i <=? scan_bound memory d); [|intros [= <- <-] _; by left].
    destruct (free_run (Z.to_nat d) memory d i 0) as [j| |] eqn:Hrun; simpl; try done.
    destruct (Z.eqb_spec j d) as [->|Hj]; simpl.
    + destruct (d <? bz).
      * intros Hscan Hi. destruct (IH _ _ _ Hscan) as [->|[Hle Hs]]; [lia|..].
        -- right. split; [lia | done].
        -- right. split; [lia | done].
      * intros Hscan Hi. destruct (IH _ _ _ Hscan) as [->|[Hle Hs]]; [lia|..].
        -- by left.
        -- right. split; [lia | done].
    + intros Hscan Hi. destruct (IH _ _ _ Hscan) as [->|[Hle Hs]]; [lia|..].
      * by left.
      * right. split; [lia | done].
Qed.

Section ScanInRange.
Variables (memory : list Z) (d : Z).
Let B := scan_bound memory d.
Hypothesis B_fits : B + 1 < 2 ^ 64.
Hypothesis B_nonneg : 0 <= B.
Hypothesis run_total :
  forall i, 0 <= i <= B -> exists j, free_run (Z.to_nat d) memory d i 0 = Done j.

Lemma scan_guard (i : Z) :
  0 <= i <= B + 1 -> (to_size_t i <=? scan_bound memory d) = bool_decide (i <= B).
Proof using B_fits.
  intros Hi. rewrite to_size_t_small by lia. fold B.
  destruct (Z.leb_spec i B).
  - by rewrite bool_decide_eq_true_2.
  - by rewrite bool_decide_eq_false_2 by lia.
Qed.

(** Once [bestSize] equals [size] the scan changes nothing. *)
Lemma scan_found (fuel : nat) (i bs : Z) :
  0 <= i -> i + Z.of_nat fuel = B + 1 ->
  scan fuel memory d i bs d = Done (bs, d).
Proof using B_fits B_nonneg run_total.
  revert i. induction fuel as [|fuel IH]; intros i Hi Hf; simpl.
  - rewrite scan_guard by lia. by rewrite bool_decide_eq_false_2 by lia.
  - rewrite scan_guard by lia. rewrite bool_decide_eq_true_2 by lia.
    destruct (run_total i) as [j ->]; [lia|]. simpl.
    rewrite Z.ltb_irrefl, andb_false_r. apply IH; lia.
Qed.

(** Before a run is found, the scan returns the first index at which the
    run test answers [size], or leaves [bestStart] alone when there is
    none up to the bound. *)
Lemma scan_search (fuel : nat) (i bz : Z) :
  0 <= i -> i + Z.of_nat fuel = B + 1 -> d < bz ->
  (scan fuel memory d i (-1) bz = Done (-1, bz) /\
   forall i', i <= i' <= B -> free_run (Z.to_nat d) memory d i' 0 <> Done d) \/
  (exists s, i <= s <= B /\
     scan fuel memory d i (-1) bz = Done (s, d) /\
     free_run (Z.to_nat d) memory d s 0 = Done d /\
     forall i', i <= i' < s -> free_run (Z.to_nat d) memory d i' 0 <> Done d).
Proof using B_fits B_nonneg run_total.
  revert i. induction fuel as [|fuel IH]; intros i Hi Hf Hbz; simpl.
  - rewrite scan_guard by lia. rewrite bool_decide_eq_false_2 by lia.
    left. split; [done | intros; lia].
  - rewrite scan_guard by lia. rewrite bool_decide_eq_true_2 by lia.
    destruct (run_total i) as [j Hrun]; [lia|]. rewrite Hrun. simpl.
    destruct (Z.eqb_spec j d) as [->|Hj]; simpl.
    + right. exists i. destruct (Z.ltb_spec d bz); [|lia].
      split; [lia|]. split; [apply scan_found; lia|]. split; [done|].
      intros; lia.
    + destruct (IH (i + 1)) as [[Hscan Hnone]|(s & Hs & Hscan & Hrun' & Hnone)];
        [lia..| |].
      * left. split; [done|]. intros i' Hi'.
        destruct (decide (i' = i)) as [->|]; [congruence | apply Hnone; lia].
      * right. exists s. split; [lia|]. split; [done|]. split; [done|].
        intros i' Hi'.
        destruct (decide (i' = i)) as [->|]; [congruence | apply Hnone; lia].
Qed.

Lemma scan_total (fuel : nat) (i bs bz : Z) :
  0 <= i -> i + Z.of_nat fuel = B + 1 ->
  exists r, scan fuel memory d i bs bz = Done r.
Proof using B_fits B_nonneg run_total.
  revert i bs bz. induction fuel as [|fuel IH]; intros i bs bz Hi Hf; simpl.
  - rewrite scan_guard by lia. rewrite bool_decide_eq_false_2 by lia. by eexists.
  - rewrite scan_guard by lia. rewrite bool_decide_eq_true_2 by lia.
    destruct (run_total i) as [j ->]; [lia|]. simpl.
    destruct ((j =? d) && (d <? bz)); apply IH; lia.
Qed.
End ScanInRange.

(** With [size] larger than the vector, the scan walks on until a run test
    reads behind the last cell. *)
Lemma scan_oob (memory : list Z) (d : Z) (fuel : nat) (i bs bz : Z) :
  Z.of_nat (length memory) < d -> d < 2 ^ 63 ->
  0 <= i <= Z.of_nat (length memory) ->
  Z.of_nat (length memory) - i < Z.of_nat fuel ->
  scan fuel memory d i bs bz = OutOfBounds.
Proof.
  intros Hd Hd63. revert i bs bz.
  assert (Hcap : Z.of_nat (length memory) < 2 ^ 63) by lia.
  pose proof (scan_bound_wraps memory d Hd Hd63) as HB.
  change (2 ^ 63) with 9223372036854775808 in *.
  change (2 ^ 64) with 18446744073709551616 in *.
  induction fuel as [|fuel IH]; intros i bs bz Hi Hf; [lia|]. simpl.
  rewrite to_size_t_small
    by (change (2 ^ 64) with 18446744073709551616; lia).
  destruct (Z.leb_spec i (scan_bound memory d)); [|lia].
  destruct (free_run_over memory d i) as [->|(j & Hrun & Hj & H0 & Hin)];
    [lia.. | done |].
  rewrite Hrun. simpl.
  destruct (Z.eqb_spec j d); [done|]. simpl. apply IH; lia.
Qed.

(** ** The airspace: allocate, deallocate, isSafe *)

(** What a completed [allocate] did, for any size and any vector: nothing
    when it answers [-1], and otherwise it marked a run that was free. *)
Lemma allocate_Done_inv (memory : list Z) (d s : Z) (memory' : list Z) :
  allocate memory d = Done (s, memory') ->
  (s = -1 /\ memory' = memory) \/
  (s <> -1 /\ free_at memory s d /\
   fill (Z.to_nat d) memory 1 s (s + d) = Done memory').
Proof.
  unfold allocate.
  destruct (scan _ memory d 0 (-1) _) as [[bs bz]| |] eqn:Hscan; simpl; try done.
  destruct (Z.eqb_spec bs (-1)) as [->|Hbs]; simpl.
  - intros [= <- <-]. by left.
  - destruct (fill (Z.to_nat d) memory 1 bs (bs + d)) as [m| |] eqn:Hfill;
      simpl; try done.
    intros [= <- <-]. right. split; [done|]. split; [|done].
    apply scan_sound in Hscan as [?|[Hs Hrun]]; [done | | lia].
    pose proof (free_run_sound _ _ _ _ _ _ Hrun Hs ltac:(lia)) as (Hd & _).
    by apply free_run_free_at.
Qed.

(** [allocate] completes for every [int] size that does not exceed the
    vector. *)
Lemma allocate_total (memory : list Z) (d : Z) :
  int_range d -> d <= Z.of_nat (length memory) ->
  Z.of_nat (length memory) < INT_MAX ->
  exists s memory', allocate memory d = Done (s, memory').
Proof.
  unfold int_range, INT_MIN, INT_MAX. intros Hd Hle Hcap.
  assert (HB : scan_bound memory d = Z.of_nat (length memory) - d).
  { apply scan_bound_fits; lia. }
  assert (Htot : forall i, 0 <= i <= scan_bound memory d ->
            exists j, free_run (Z.to_nat d) memory d i 0 = Done j).
  { intros i Hi. destruct (Z.le_gt_cases d 0).
    - exists 0. by apply free_run_nonpos.
    - apply free_run_total; lia. }
  destruct (scan_total memory d ltac:(lia) ltac:(lia) Htot
              (Z.to_nat (scan_bound memory d + 1)) 0 (-1)
              (to_int (Z.of_nat (length memory) + 1)))
    as [[bs bz] Hscan]; [lia..|].
  unfold allocate. rewrite Hscan. simpl.
  destruct (Z.eqb_spec bs (-1)) as [->|Hbs]; simpl; [by eauto|].
  apply scan_sound in Hscan as [?|[Hs Hrun]]; [done | | lia].
  pose proof (free_run_sound _ _ _ _ _ _ Hrun Hs ltac:(lia)) as (H0 & _).
  apply free_run_free_at in Hrun; [|lia..].
  destruct (fill_run memory 1 bs d Hrun) as (m & -> & _). simpl. by eauto.
Qed.

(** First fit: for a positive size that fits the vector, [allocate]
    returns the least start of a free run of that size and marks it, or
    returns [-1] and touches nothing when there is no such run. *)
Lemma allocate_fits (memory : list Z) (d : Z) :
  0 < d <= Z.of_nat (length memory) ->
  Z.of_nat (length memory) < INT_MAX ->
  exists s memory',
    allocate memory d = Done (s, memory') /\
    (s = -1 <-> forall i, ~ free_at memory i d) /\
    (s = -1 -> memory' = memory) /\
    (s <> -1 ->
       free_at memory s d /\
       (forall i, free_at memory i d -> s <= i) /\
       length memory' = length memory /\
       forall k : nat,
         memory' !! k =
         if bool_decide (s <= Z.of_nat k < s + d) then Some 1 else memory !! k).
Proof.
  intros Hd Hcap.
  assert (Hcap' : Z.of_nat (length memory) < 2 ^ 31 - 1) by exact Hcap.
  assert (HB : scan_bound memory d = Z.of_nat (length memory) - d).
  { apply scan_bound_fits; lia. }
  assert (Htot : forall i, 0 <= i <= scan_bound memory d ->
            exists j, free_run (Z.to_nat d) memory d i 0 = Done j).
  { intros i Hi. apply free_run_total; lia. }
  assert (Hbz : to_int (Z.of_nat (length memory) + 1) = Z.of_nat (length memory) + 1).
  { apply to_int_small. unfold int_range, INT_MIN, INT_MAX. lia. }
  assert (Hiff : forall i, 0 <= i <= scan_bound memory d ->
            free_run (Z.to_nat d) memory d i 0 = Done d <-> free_at memory i d).
  { intros i Hi. apply free_run_free_at; lia. }
  assert (Hout : forall i, free_at memory i d -> 0 <= i <= scan_bound memory d).
  { intros i Hfree. apply free_at_inside in Hfree; lia. }
  destruct (scan_search memory d ltac:(lia) ltac:(lia) Htot
              (Z.to_nat (scan_bound memory d + 1)) 0
              (to_int (Z.of_nat (length memory) + 1)))
    as [[Hscan Hnone]|(s & Hs & Hscan & Hrun & Hnone)]; [lia..| |].
  - exists (-1), memory. unfold allocate. rewrite Hscan. simpl.
    split; [done|]. split; [|done]. split; [|done].
    intros _ i Hfree. apply (Hnone i); [by apply Hout|].
    apply Hiff; [by apply Hout | done].
  - apply Hiff in Hrun; [|lia].
    destruct (fill_run memory 1 s d Hrun) as (m & Hfill & Hlen & Hget).
    exists s, m. unfold allocate. rewrite Hscan. simpl.
    destruct (Z.eqb_spec s (-1)); [lia|]. simpl. rewrite Hfill. simpl.
    split; [done|]. split; [|split; [lia|]].
    + split; [lia|]. intros Hno. by destruct (Hno s).
    + intros _. split; [done|]. split; [|done].
      intros i Hfree. destruct (Z.le_gt_cases s i); [done|].
      exfalso. apply (Hnone i); [|apply Hiff; [by apply Hout | done]].
      apply Hout in Hfree. lia.
Qed.

(** For a size larger than the vector, the unsigned bound of the scan wraps
    and the run test reads behind the vector before the scan can end. *)
Lemma allocate_oversized (memory : list Z) (d : Z) :
  Z.of_nat (length memory) < d -> int_range d ->
  allocate memory d = OutOfBounds.
Proof.
  unfold int_range, INT_MIN, INT_MAX. intros Hd Hr.
  assert (Hd63 : d < 2 ^ 63).
  { change (2 ^ 63) with 9223372036854775808.
    change (2 ^ 31) with 2147483648 in Hr. lia. }
  unfold allocate. rewrite scan_oob; [done | done | done | lia |].
  rewrite scan_bound_wraps by done.
  change (2 ^ 63) with 9223372036854775808 in *.
  change (2 ^ 64) with 18446744073709551616. lia.
Qed.

Lemma isSafe_count (memory : list Z) (c : Z) :
  fold_left (fun c m => if m =? 0 then c + 1 else c) memory c =
  c + free_units memory.
Proof.
  unfold free_units. revert c.
  induction memory as [|m memory IH]; intros c; simpl; [lia|].
  rewrite IH, filter_cons.
  destruct (Z.eqb_spec m 0); case_decide; try done; simpl; lia.
Qed.

Lemma free_units_le_length (memory : list Z) :
  free_units memory <= Z.of_nat (length memory).
Proof.
  unfold free_units. pose proof (length_filter (fun m => m = 0) memory). lia.
Qed.

Lemma isSafe_spec (memory : list Z) (d : Z) :
  isSafe memory d = true <-> d <= free_units memory.
Proof. unfold isSafe. rewrite isSafe_count, Z.geb_le. lia. Qed.

(** C2 (the code departs from it).  On a five-cell airspace that is all
    free, [allocate(8)] does not return [-1]: the scan bound wraps, and the
    run test at [i = 0] reads [memory[5]], behind the last cell. *)
Theorem allocate_8_of_5_out_of_bounds :
  allocate (MemoryManager 5) 8 = OutOfBounds.
Proof.
  apply allocate_oversized.
  - simpl. lia.
  - unfold int_range, INT_MIN, INT_MAX. lia.
Qed.

(** C5.  For a size [d] with [0 < d <= capacity], on an airspace of fewer
    than [INT_MAX] cells, [allocate] completes; it answers [-1] exactly
    when no free run of [d] cells exists, and then changes nothing;
    otherwise it answers the least start [s] of such a run, sets the cells
    [[s, s + d)] to 1 and leaves every other cell as it was. *)
Theorem allocate_first_fit (memory : list Z) (d : Z) :
  0 < d <= Z.of_nat (length memory) ->
  Z.of_nat (length memory) < INT_MAX ->
  exists s memory',
    allocate memory d = Done (s, memory') /\
    (s = -1 <-> forall i, ~ free_at memory i d) /\
    (s = -1 -> memory' = memory) /\
    (s <> -1 ->
       free_at memory s d /\
       (forall i, free_at memory i d -> s <= i) /\
       length memory' = length memory /\
       forall k : nat,
         memory' !! k =
         if bool_decide (s <= Z.of_nat k < s + d) then Some 1 else memory !! k).
Proof. apply allocate_fits. Qed.

Lemma allocate_first_fit_witness :
  exists s memory',
    allocate [0; 1; 0; 0; 1; 0; 0; 0] 3 = Done (s, memory') /\
    (s = -1 <-> forall i, ~ free_at [0; 1; 0; 0; 1; 0; 0; 0] i 3) /\
    (s = -1 -> memory' = [0; 1; 0; 0; 1; 0; 0; 0]) /\
    (s <> -1 ->
       free_at [0; 1; 0; 0; 1; 0; 0; 0] s 3 /\
       (forall i, free_at [0; 1; 0; 0; 1; 0; 0; 0] i 3 -> s <= i) /\
       length memory' = length [0; 1; 0; 0; 1; 0; 0; 0] /\
       forall k : nat,
         memory' !! k =
         if bool_decide (s <= Z.of_nat k < s + 3) then Some 1
         else [0; 1; 0; 0; 1; 0; 0; 0] !! k).
Proof.
  apply (allocate_first_fit [0; 1; 0; 0; 1; 0; 0; 0] 3).
  - simpl. lia.
  - unfold INT_MAX. simpl. lia.
Defined.

Example allocate_first_fit_run :
  allocate [0; 1; 0; 0; 1; 0; 0; 0] 3 = Done (5, [0; 1; 0; 0; 1; 1; 1; 1]).
Proof. reflexivity. Qed.

(** C6.  [isSafe(d)] is true exactly when at least [d] cells are free; it
    does not look at where they are: on the airspace [. # .] it accepts
    [d = 2] although no two adjacent cells are free and [allocate(2)]
    answers [-1]. *)
Theorem isSafe_counts_free_units :
  (forall memory d, isSafe memory d = true <-> d <= free_units memory) /\
  (exists memory d,
     isSafe memory d = true /\
     (forall i, ~ free_at memory i d) /\
     allocate memory d = Done (-1, memory)).
Proof.
  split; [apply isSafe_spec|].
  exists [0; 1; 0], 2. split; [reflexivity|]. split; [|reflexivity].
  intros i [Hi Hfree].
  assert (i = 0 \/ i = 1 \/ 2 <= i) as [->|[->|Hge]] by lia.
  - by specialize (Hfree 1 ltac:(lia)).
  - by specialize (Hfree 0 ltac:(lia)).
  - specialize (Hfree 1 ltac:(lia)). apply lookup_lt_Some in Hfree.
    simpl in Hfree. lia.
Qed.

(** C7.  When [allocate(d)] succeeds with start [s], [deallocate(s, d)]
    right after it completes and gives back the layout that [allocate] was
    called on. *)
Theorem deallocate_allocate (memory : list Z) (d s : Z) (memory' : list Z) :
  allocate memory d = Done (s, memory') -> s <> -1 ->
  deallocate memory' s d = Done memory.
Proof.
  intros Halloc Hs.
  apply allocate_Done_inv in Halloc as [[? _]|(_ & Hfree & Hfill)]; [done|].
  unfold deallocate. by apply fill_undo.
Qed.

Lemma deallocate_allocate_witness :
  deallocate [0; 1; 0; 0; 1; 1; 1; 1] 5 3 = Done [0; 1; 0; 0; 1; 0; 0; 0].
Proof.
  apply (deallocate_allocate [0; 1; 0; 0; 1; 0; 0; 0] 3 5 [0; 1; 0; 0; 1; 1; 1; 1]).
  - reflexivity.
  - lia.
Defined.

(** ** The engine: one iteration *)

Lemma move_arrived_perm (time : Z) (incoming readyQueue incoming' readyQueue' : list Plane) :
  move_arrived time incoming readyQueue = (incoming', readyQueue') ->
  Permutation (incoming' ++ readyQueue') (incoming ++ readyQueue).
Proof.
  revert readyQueue incoming' readyQueue'.
  induction incoming as [|p rest IH]; intros q inc' q'; simpl.
  - by intros [= <- <-].
  - destruct (arrivalTime p <=? time).
    + intros H. rewrite (IH _ _ _ H). unfold addPlane.
      rewrite app_assoc. symmetry. apply Permutation_cons_append.
    + destruct (move_arrived time rest q) as [i1 q1] eqn:Hrec.
      intros [= <- <-]. simpl. constructor. by apply IH.
Qed.

Lemma sentinel_wf : plane_wf sentinel.
Proof. unfold plane_wf, int_range, INT_MIN, INT_MAX. simpl. lia. Qed.

(** The two ways [getNextPlane] answers. *)
Lemma getNextPlane_cases (readyQueue : list Plane) (cur : Plane) (rest : list Plane) :
  getNextPlane readyQueue = (cur, rest) ->
  (readyQueue = [] /\ cur = sentinel /\ rest = []) \/
  (readyQueue <> [] /\ Permutation (cur :: rest) readyQueue).
Proof.
  intros Hget. destruct readyQueue as [|q0 q].
  - left. by injection Hget as <- <-.
  - right. split; [done|].
    destruct (getNextPlane_with_min sort sort_meets_contract (q0 :: q))
      as (p & r & Hget' & Hperm & _); [done|].
    unfold getNextPlane in Hget. rewrite Hget' in Hget. by injection Hget as <- <-.
Qed.

(** What an iteration starts from: the admission and the extraction, with
    the planes accounted for. *)
Lemma step_inputs (st : SimState) :
  state_wf st ->
  exists incoming' q1 cur rest,
    move_arrived (st_time st) (st_incoming st) (st_readyQueue st) = (incoming', q1) /\
    getNextPlane q1 = (cur, rest) /\
    Forall plane_wf incoming' /\ plane_wf cur /\ Forall plane_wf rest /\
    (length incoming' + length q1 = pending st)%nat /\
    ((q1 = [] /\ cur = sentinel /\ rest = []) \/
     (length q1 = S (length rest) /\ cur ∈ q1)).
Proof.
  intros (Hinc & Hq & _).
  destruct (move_arrived (st_time st) (st_incoming st) (st_readyQueue st))
    as [incoming' q1] eqn:Hmove.
  destruct (getNextPlane q1) as [cur rest] eqn:Hget.
  exists incoming', q1, cur, rest. split; [done|]. split; [done|].
  pose proof (move_arrived_perm _ _ _ _ _ Hmove) as Hperm.
  assert (Hall : Forall plane_wf (incoming' ++ q1)).
  { rewrite Hperm. by apply Forall_app. }
  apply Forall_app in Hall as [Hinc' Hq1].
  split; [done|].
  assert (Hlen : (length incoming' + length q1 = pending st)%nat).
  { apply Permutation_length in Hperm. rewrite !length_app in Hperm. done. }
  destruct (getNextPlane_cases _ _ _ Hget) as [(-> & -> & ->)|[Hne Hp]].
  - split; [apply sentinel_wf|]. split; [constructor|]. split; [done|]. by left.
  - rewrite <- Hp in Hq1. apply Forall_cons in Hq1 as [Hcur Hrest].
    split; [done|]. split; [done|]. split; [done|]. right.
    split; [by rewrite <- Hp|]. rewrite <- Hp. by left.
Qed.

(** An extracted plane whose [id] is [-1] is taken for "queue empty". *)
Lemma sim_step_idle (st : SimState) (incoming' q1 : list Plane) (cur : Plane)
    (rest : list Plane) :
  move_arrived (st_time st) (st_incoming st) (st_readyQueue st) = (incoming', q1) ->
  getNextPlane q1 = (cur, rest) ->
  id cur = -1 ->
  sim_step st =
  Done (NoPlanes (st_time st),
        mkState incoming' rest (st_memory st) (st_time st + 1) (st_gantt st)).
Proof.
  intros Hmove Hget Hid. unfold sim_step. cbv zeta. rewrite Hmove, Hget.
  by destruct (Z.eqb_spec (id cur) (-1)).
Qed.

(** A deferred plane goes back to the queue and nothing else changes but
    the clock. *)
Lemma sim_step_deferred (st : SimState) (incoming' q1 : list Plane) (cur : Plane)
    (rest : list Plane) :
  move_arrived (st_time st) (st_incoming st) (st_readyQueue st) = (incoming', q1) ->
  getNextPlane q1 = (cur, rest) ->
  id cur <> -1 ->
  isSafe (st_memory st) (size cur) = false \/
  (exists memory', allocate (st_memory st) (size cur) = Done (-1, memory')) ->
  exists ev,
    (ev = Unsafe (st_time st) cur \/ ev = NoSpace (st_time st) cur) /\
    sim_step st =
    Done (ev, mkState incoming' (rest ++ [cur]) (st_memory st)
                      (st_time st + 1) (st_gantt st)).
Proof.
  intros Hmove Hget Hid Hfail. unfold sim_step. cbv zeta.
  rewrite Hmove, Hget. destruct (Z.eqb_spec (id cur) (-1)); [done|].
  destruct (isSafe (st_memory st) (size cur)) eqn:Hsafe; simpl.
  - destruct Hfail as [?|[memory' Halloc]]; [done|].
    rewrite Halloc. simpl.
    apply allocate_Done_inv in Halloc as [[_ ->]|[? _]]; [|done].
    eexists. split; [by right | done].
  - eexists. split; [by left | done].
Qed.

(** A successful allocation is released in the same iteration. *)
Lemma sim_step_landing (st : SimState) (incoming' q1 : list Plane) (cur : Plane)
    (rest : list Plane) (s : Z) (memory' : list Z) :
  move_arrived (st_time st) (st_incoming st) (st_readyQueue st) = (incoming', q1) ->
  getNextPlane q1 = (cur, rest) ->
  id cur <> -1 ->
  isSafe (st_memory st) (size cur) = true ->
  allocate (st_memory st) (size cur) = Done (s, memory') -> s <> -1 ->
  deallocate memory' s (size cur) = Done (st_memory st) /\
  sim_step st =
  Done (Landing (st_time st) cur,
        mkState incoming' rest (st_memory st) (st_time st + landingTime cur)
                (st_gantt st ++ [(id cur, landingTime cur)])).
Proof.
  intros Hmove Hget Hid Hsafe Halloc Hs.
  assert (Hfree : deallocate memory' s (size cur) = Done (st_memory st)).
  { pose proof Halloc as Hinv.
    apply allocate_Done_inv in Hinv as [[? _]|(_ & Hfree & Hfill)]; [done|].
    unfold deallocate. by apply fill_undo. }
  split; [done|]. unfold sim_step. cbv zeta. rewrite Hmove, Hget.
  destruct (Z.eqb_spec (id cur) (-1)); [done|].
  rewrite Hsafe. simpl. rewrite Halloc. simpl.
  destruct (Z.eqb_spec s (-1)); [done|]. by rewrite Hfree.
Qed.

(** Every iteration completes, in one of four ways. *)
Lemma sim_step_cases (st : SimState) :
  state_wf st ->
  exists incoming' q1 cur rest ev st',
    move_arrived (st_time st) (st_incoming st) (st_readyQueue st) = (incoming', q1) /\
    getNextPlane q1 = (cur, rest) /\
    sim_step st = Done (ev, st') /\
    state_wf st' /\
    st_incoming st' = incoming' /\
    st_memory st' = st_memory st /\
    st_gantt st' = st_gantt st ++ gantt_entry ev /\
    ((ev = NoPlanes (st_time st) /\ id cur = -1 /\
      st_readyQueue st' = rest /\ st_time st' = st_time st + 1) \/
     ((ev = Unsafe (st_time st) cur \/ ev = NoSpace (st_time st) cur) /\
      id cur <> -1 /\
      st_readyQueue st' = rest ++ [cur] /\ st_time st' = st_time st + 1) \/
     (ev = Landing (st_time st) cur /\ id cur <> -1 /\ cur ∈ q1 /\
      length q1 = S (length rest) /\
      st_readyQueue st' = rest /\
      st_time st' = st_time st + landingTime cur)) /\
    (length incoming' + length q1 = pending st)%nat.
Proof.
  intros Hwf.
  destruct (step_inputs st Hwf)
    as (incoming' & q1 & cur & rest & Hmove & Hget & Hinc & Hcur & Hrest & Hlen & Hq1).
  destruct Hwf as (_ & _ & Hcap).
  exists incoming', q1, cur, rest.
  destruct (decide (id cur = -1)) as [Hid|Hid].
  { eexists _, _. split; [done|]. split; [done|].
    split; [exact (sim_step_idle st incoming' q1 cur rest Hmove Hget Hid)|].
    simpl.
    rewrite app_nil_r. repeat split; try done. by left. }
  destruct (isSafe (st_memory st) (size cur)) eqn:Hsafe.
  - apply isSafe_spec in Hsafe as Hfree.
    pose proof (free_units_le_length (st_memory st)) as Hle.
    destruct (allocate_total (st_memory st) (size cur)) as (s & memory' & Halloc);
      [apply Hcur | lia | done |].
    destruct (decide (s = -1)) as [->|Hs].
    + destruct (sim_step_deferred st incoming' q1 cur rest Hmove Hget Hid)
        as (ev & Hev & Hstep); [right; by eexists|].
      eexists ev, _. split; [done|]. split; [done|]. split; [exact Hstep|].
      simpl. repeat split; try done.
      * apply Forall_app. split; [done|]. by constructor.
      * destruct Hev as [->| ->]; simpl; by rewrite app_nil_r.
      * right. left. done.
    + destruct (sim_step_landing st incoming' q1 cur rest s memory'
                  Hmove Hget Hid Hsafe Halloc Hs) as [_ Hstep].
      eexists _, _. split; [done|]. split; [done|]. split; [exact Hstep|].
      simpl. repeat split; try done.
      right. right.
      destruct Hq1 as [(_ & -> & _)|[Hl Hin]]; [done|]. done.
  - destruct (sim_step_deferred st incoming' q1 cur rest Hmove Hget Hid)
      as (ev & Hev & Hstep); [by left|].
    eexists ev, _. split; [done|]. split; [done|]. split; [exact Hstep|].
    simpl. repeat split; try done.
    + apply Forall_app. split; [done|]. by constructor.
    + destruct Hev as [->| ->]; simpl; by rewrite app_nil_r.
    + right. left. done.
Qed.

(** ** The engine: the loop *)

Lemma init_wf (incoming : list Plane) :
  Forall plane_wf incoming -> state_wf (init incoming).
Proof.
  intros H. split; [done|]. split; [constructor|].
  unfold INT_MAX. simpl. lia.
Qed.

(** Any number of iterations completes, keeps the state well formed and
    hands the airspace on as it found it; [gantt] grows by one entry per
    landing. *)
Lemma sim_steps_inv (n : nat) (st : SimState) :
  state_wf st ->
  exists es st',
    sim_steps n st = Done (es, st') /\ state_wf st' /\
    st_memory st' = st_memory st /\
    st_gantt st' = st_gantt st ++ concat (map gantt_entry es).
Proof.
  revert st. induction n as [|n IH]; intros st Hwf; simpl.
  - exists [], st. by rewrite app_nil_r.
  - destruct (running st).
    + destruct (sim_step_cases st Hwf)
        as (_ & _ & _ & _ & ev & st1 & _ & _ & Hstep & Hwf1 & _ & Hmem1 & Hg1 & _).
      destruct (IH st1 Hwf1) as (es & st2 & Hsteps & Hwf2 & Hmem2 & Hg2).
      exists (ev :: es), st2. rewrite Hstep. simpl. rewrite Hsteps. simpl.
      split; [done|]. split; [done|]. split; [congruence|].
      by rewrite Hg2, Hg1, <- app_assoc.
    + exists [], st. by rewrite app_nil_r.
Qed.

(** The chart is computed from the landing times alone. *)
Lemma gantt_entry_served (es : list Event) :
  concat (map gantt_entry es) = map (fun r => (r.1.1, r.2 - r.1.2)) (served es).
Proof.
  unfold served. induction es as [|e es IH]; [done|].
  destruct e; simpl; rewrite IH; try done.
  do 2 f_equal. lia.
Qed.

(** C3 (the code departs from it).  A single plane arriving at time 2 is
    allocated at simulated time 2 and served until 5, after two idle
    steps; [gantt] keeps only [(id, landingTime)], and the chart printed at
    the end restarts its clock at 0 and reports [(1, 0, 3)]. *)
Theorem gantt_chart_restarts_clock :
  exists es rows,
    simulate 3 [Plane5 1 2 5 4 3] = Done (es, rows) /\
    es = [NoPlanes 0; NoPlanes 1; Landing 2 (Plane5 1 2 5 4 3)] /\
    served es = [(1, 2, 5)] /\
    rows = [(1, 0, 3)].
Proof. eexists _, _. split; [reflexivity|]. done. Qed.

(** In every completed run from well-formed planes in which neither the
    clock of the loop nor the clock of the chart leaves [int], the chart
    lists the landings in order with their durations, each row starting
    where the previous one ended and the first at 0, whatever the
    simulated time of the allocation was. *)
Lemma simulate_chart (fuel : nat) (incoming : list Plane)
    (es : list Event) (rows : list (Z * Z * Z)) :
  Forall plane_wf incoming ->
  simulate fuel incoming = Done (es, rows) ->
  Forall event_clock_ok es ->
  Forall row_in_range rows ->
  rows = gantt_rows 0 (map (fun r => (r.1.1, r.2 - r.1.2)) (served es)).
Proof.
  intros Hwf Hsim _ _. revert Hsim. unfold simulate.
  destruct (sim_steps_inv fuel (init incoming) (init_wf _ Hwf))
    as (es' & st & -> & _ & _ & Hg). simpl.
  destruct (running st); [done|]. intros [= <- <-].
  by rewrite Hg, gantt_entry_served.
Qed.

(** C4.  Every iteration whose clock update stays within [int] completes
    and moves on: a landing takes one plane out of the planes not yet
    released, and every other iteration (no plane, unsafe, no space)
    advances the clock by exactly 1; the new clock is an [int] again, and
    the state after an iteration is never the state before it. *)
Theorem sim_step_progress (st : SimState) :
  state_wf st -> clock_fits st ->
  exists ev st',
    sim_step st = Done (ev, st') /\
    st' <> st /\
    int_range (st_time st') /\
    match ev with
    | Landing _ p =>
        (pending st' < pending st)%nat /\
        st_time st' = st_time st + landingTime p
    | NoPlanes _ | Unsafe _ _ | NoSpace _ _ =>
        st_time st' = st_time st + 1
    end.
Proof.
  intros Hwf [Hclock Hland].
  destruct (sim_step_cases st Hwf)
    as (incoming' & q1 & cur & rest & ev & st' & Hmove & _ & Hstep & _ & Hinc & _ & _
        & Hcase & Hlen).
  exists ev, st'. split; [done|].
  assert (Hnext : int_range (st_time st + 1)).
  { unfold int_range, INT_MIN, INT_MAX in *. lia. }
  destruct Hcase as [(-> & _ & _ & Ht)|[([->| ->] & _ & _ & Ht)|(-> & _ & Hin & Hq1 & Hq & Ht)]].
  - split; [intros ->; lia|]. by rewrite Ht.
  - split; [intros ->; lia|]. by rewrite Ht.
  - split; [intros ->; lia|]. by rewrite Ht.
  - assert (Hp : (pending st' < pending st)%nat).
    { unfold pending at 1. rewrite Hinc, Hq. lia. }
    split; [intros ->; lia|]. rewrite Ht. split; [|done].
    rewrite Forall_forall in Hland. apply Hland.
    rewrite <- (move_arrived_perm _ _ _ _ _ Hmove).
    apply elem_of_app. by right.
Qed.

Lemma sim_step_progress_witness :
  exists ev st',
    sim_step (init normalPlanes) = Done (ev, st') /\
    st' <> init normalPlanes /\
    int_range (st_time st') /\
    match ev with
    | Landing _ p =>
        (pending st' < pending (init normalPlanes))%nat /\
        st_time st' = st_time (init normalPlanes) + landingTime p
    | NoPlanes _ | Unsafe _ _ | NoSpace _ _ =>
        st_time st' = st_time (init normalPlanes) + 1
    end.
Proof.
  apply (sim_step_progress (init normalPlanes)).
  - apply init_wf.
    repeat constructor; unfold int_range, INT_MIN, INT_MAX; simpl; lia.
  - split; [unfold INT_MIN, INT_MAX; simpl; lia|].
    repeat constructor; unfold int_range, INT_MIN, INT_MAX; simpl; lia.
Defined.

(** C8.  When the extracted plane (one whose [id] is not [-1]) fails the
    safety check, or [allocate] answers [-1] for it, the iteration
    completes without error: the same plane record is pushed back on the
    queue, and the airspace and [gantt] are as before; only the clock moves,
    by 1. *)
Theorem deferral_is_atomic (st : SimState) (incoming' q1 : list Plane)
    (cur : Plane) (rest : list Plane) :
  move_arrived (st_time st) (st_incoming st) (st_readyQueue st) = (incoming', q1) ->
  getNextPlane q1 = (cur, rest) ->
  id cur <> -1 ->
  isSafe (st_memory st) (size cur) = false \/
  (exists memory', allocate (st_memory st) (size cur) = Done (-1, memory')) ->
  exists ev,
    (ev = Unsafe (st_time st) cur \/ ev = NoSpace (st_time st) cur) /\
    sim_step st =
    Done (ev, mkState incoming' (rest ++ [cur]) (st_memory st)
                      (st_time st + 1) (st_gantt st)).
Proof. apply sim_step_deferred. Qed.

Lemma deferral_is_atomic_witness :
  exists ev,
    (ev = Unsafe 0 (Plane5 7 0 3 25 3) \/ ev = NoSpace 0 (Plane5 7 0 3 25 3)) /\
    sim_step (init [Plane5 7 0 3 25 3; Plane5 8 0 4 2 2]) =
    Done (ev, mkState [] ([Plane5 8 0 4 2 2] ++ [Plane5 7 0 3 25 3])
                      (MemoryManager 20) (0 + 1) []).
Proof.
  apply (deferral_is_atomic (init [Plane5 7 0 3 25 3; Plane5 8 0 4 2 2])
           [] [Plane5 7 0 3 25 3; Plane5 8 0 4 2 2]
           (Plane5 7 0 3 25 3) [Plane5 8 0 4 2 2]).
  - reflexivity.
  - reflexivity.
  - simpl. lia.
  - left. reflexivity.
Defined.

(** A failed allocation after a passed safety check, on a fragmented
    airspace. *)
Example deferral_no_space :
  sim_step (mkState [] [Plane5 3 0 1 2 1] [0; 1; 0] 4 [(9, 2)]) =
  Done (NoSpace 4 (Plane5 3 0 1 2 1),
        mkState [] [Plane5 3 0 1 2 1] [0; 1; 0] 5 [(9, 2)]).
Proof. reflexivity. Qed.

(** C9.  From any well-formed input, any number of iterations completes,
    and the state the next iteration starts from has all 20 cells of the
    airspace free: whatever an iteration allocates it has released
    again. *)
Theorem airspace_free_between_iterations (incoming : list Plane) (n : nat) :
  Forall plane_wf incoming ->
  exists es st,
    sim_steps n (init incoming) = Done (es, st) /\
    st_memory st = replicate 20 0 /\
    free_units (st_memory st) = 20.
Proof.
  intros Hwf.
  destruct (sim_steps_inv n (init incoming) (init_wf _ Hwf))
    as (es & st & Hsteps & _ & Hmem & _).
  exists es, st. split; [done|]. rewrite Hmem. split; reflexivity.
Qed.

Lemma airspace_free_between_iterations_witness :
  exists es st,
    sim_steps 3 (init deadlockScenario) = Done (es, st) /\
    st_memory st = replicate 20 0 /\
    free_units (st_memory st) = 20.
Proof.
  apply (airspace_free_between_iterations deadlockScenario 3).
  repeat constructor; unfold int_range, INT_MIN, INT_MAX; simpl; lia.
Defined.

(** C10.  An empty queue yields [Plane(-1, 0, 0, 0, 0)], and the engine
    tells "queue empty" by [id == -1] and by nothing else.  Whenever the
    extracted plane has [id = -1], the iteration is an idle step, also when
    that plane came out of a non-empty queue; the queue afterwards is the
    old one without it, and neither the airspace nor [gantt] records it.
    Whenever the extracted plane has another [id], the iteration is not an
    idle step: it names that plane, and either pushes it back on the queue
    or lands it and enters it in [gantt]. *)
Theorem id_minus_one_is_dropped :
  getNextPlane [] = (mkPlane (-1) 0 0 0 0 false, []) /\
  (forall (st : SimState) (incoming' q1 : list Plane) (cur : Plane)
          (rest : list Plane),
     move_arrived (st_time st) (st_incoming st) (st_readyQueue st) = (incoming', q1) ->
     getNextPlane q1 = (cur, rest) ->
     id cur = -1 ->
     sim_step st =
     Done (NoPlanes (st_time st),
           mkState incoming' rest (st_memory st) (st_time st + 1) (st_gantt st)) /\
     (q1 <> [] -> Permutation (cur :: rest) q1)) /\
  (forall (st : SimState) (incoming' q1 : list Plane) (cur : Plane)
          (rest : list Plane),
     state_wf st ->
     move_arrived (st_time st) (st_incoming st) (st_readyQueue st) = (incoming', q1) ->
     getNextPlane q1 = (cur, rest) ->
     id cur <> -1 ->
     exists ev st',
       sim_step st = Done (ev, st') /\
       st_incoming st' = incoming' /\
       (((ev = Unsafe (st_time st) cur \/ ev = NoSpace (st_time st) cur) /\
         st_readyQueue st' = rest ++ [cur] /\
         st_gantt st' = st_gantt st) \/
        (ev = Landing (st_time st) cur /\
         st_readyQueue st' = rest /\
         st_gantt st' = st_gantt st ++ [(id cur, landingTime cur)]))).
Proof.
  split; [reflexivity|]. split.
  - intros st incoming' q1 cur rest Hmove Hget Hid.
    split; [by apply (sim_step_idle st incoming' q1 cur rest)|].
    intros Hne. by destruct (getNextPlane_cases _ _ _ Hget) as [[? _]|[_ ?]].
  - intros st incoming' q1 cur rest Hwf Hmove Hget Hid.
    destruct (sim_step_cases st Hwf)
      as (inc2 & q2 & cur2 & rest2 & ev & st' & Hmove2 & Hget2 & Hstep & _ & Hinc
          & _ & Hg & Hcase & _).
    rewrite Hmove in Hmove2. injection Hmove2 as <- <-.
    rewrite Hget in Hget2. injection Hget2 as <- <-.
    exists ev, st'. split; [done|]. split; [done|].
    destruct Hcase as [(_ & ? & _)|[(Hev & _ & Hq & _)|(-> & _ & _ & _ & Hq & _)]];
      [done | left | right].
    + split; [done|]. split; [done|].
      rewrite Hg. destruct Hev as [->| ->]; simpl; by rewrite app_nil_r.
    + split; [done|]. split; [done|]. by rewrite Hg.
Qed.

Lemma id_minus_one_is_dropped_witness :
  (sim_step (init [Plane5 (-1) 0 1 2 3; Plane5 4 0 5 2 1]) =
   Done (NoPlanes 0,
         mkState [] [Plane5 4 0 5 2 1] (MemoryManager 20) (0 + 1) []) /\
   ([Plane5 (-1) 0 1 2 3; Plane5 4 0 5 2 1] <> [] ->
    Permutation (Plane5 (-1) 0 1 2 3 :: [Plane5 4 0 5 2 1])
                [Plane5 (-1) 0 1 2 3; Plane5 4 0 5 2 1])) /\
  exists ev st',
    sim_step (init [Plane5 4 0 5 2 1]) = Done (ev, st') /\
    st_incoming st' = [] /\
    (((ev = Unsafe 0 (Plane5 4 0 5 2 1) \/ ev = NoSpace 0 (Plane5 4 0 5 2 1)) /\
      st_readyQueue st' = [] ++ [Plane5 4 0 5 2 1] /\
      st_gantt st' = []) \/
     (ev = Landing 0 (Plane5 4 0 5 2 1) /\
      st_readyQueue st' = [] /\
      st_gantt st' = [] ++ [(id (Plane5 4 0 5 2 1), landingTime (Plane5 4 0 5 2 1))])).
Proof.
  split.
  - apply (proj1 (proj2 id_minus_one_is_dropped)
             (init [Plane5 (-1) 0 1 2 3; Plane5 4 0 5 2 1])
             [] [Plane5 (-1) 0 1 2 3; Plane5 4 0 5 2 1]
             (Plane5 (-1) 0 1 2 3) [Plane5 4 0 5 2 1]).
    + reflexivity.
    + reflexivity.
    + reflexivity.
  - apply (proj2 (proj2 id_minus_one_is_dropped)
             (init [Plane5 4 0 5 2 1]) [] [Plane5 4 0 5 2 1]
             (Plane5 4 0 5 2 1) []).
    + apply init_wf.
      repeat constructor; unfold int_range, INT_MIN, INT_MAX; simpl; lia.
    + reflexivity.
    + reflexivity.
    + simpl. lia.
Defined.

(** The plane with [id = -1] never lands: the run ends with the other
    plane served alone. *)
Example id_minus_one_run :
  simulate 2 [Plane5 (-1) 0 1 2 3; Plane5 4 0 5 2 1] =
  Done ([NoPlanes 0; Landing 1 (Plane5 4 0 5 2 1)], [(4, 0, 1)]).
Proof. reflexivity. Qed.

(** A plane larger than the airspace is turned away by [isSafe] on every
    iteration, so the engine never calls [allocate] for it; the loop
    defers it without end. *)
Example oversized_plane_is_deferred :
  sim_steps 3 (init [Plane5 7 0 3 25 3]) =
  Done ([Unsafe 0 (Plane5 7 0 3 25 3); Unsafe 1 (Plane5 7 0 3 25 3);
         Unsafe 2 (Plane5 7 0 3 25 3)],
        mkState [] [Plane5 7 0 3 25 3] (MemoryManager 20) 3 []).
Proof. reflexivity. Qed.

(* ===================================================================== *)
(** * Further properties of the airspace *)
(* ===================================================================== *)

Lemma free_units_app (l1 l2 : list Z) :
  free_units (l1 ++ l2) = free_units l1 + free_units l2.
Proof. unfold free_units. rewrite filter_app, length_app. lia. Qed.

Lemma free_units_replicate_0 (n : nat) : free_units (replicate n 0) = Z.of_nat n.
Proof.
  unfold free_units. induction n as [|n IH]; [done|].
  change (replicate (S n) 0) with (0 :: replicate n 0).
  rewrite filter_cons_True by done. rewrite length_cons. lia.
Qed.

Lemma free_units_replicate_1 (n : nat) : free_units (replicate n 1) = 0.
Proof.
  unfold free_units. induction n as [|n IH]; [done|].
  change (replicate (S n) 1) with (1 :: replicate n 1).
  by rewrite filter_cons_False.
Qed.

(** A vector known cell by cell, as a range of [v] spliced into another
    vector. *)
Lemma splice_lookup (memory memory' : list Z) (v s d : Z) :
  0 <= s -> 0 <= d -> s + d <= Z.of_nat (length memory) ->
  length memory' = length memory ->
  (forall k : nat,
     memory' !! k =
     if bool_decide (s <= Z.of_nat k < s + d) then Some v else memory !! k) ->
  memory' =
  take (Z.to_nat s) memory ++ replicate (Z.to_nat d) v ++
  drop (Z.to_nat (s + d)) memory.
Proof.
  intros Hs Hd Hcap Hlen Hget. apply list_eq. intros k. rewrite Hget.
  destruct (decide (Z.of_nat k < s)) as [Hk|Hk].
  - rewrite bool_decide_eq_false_2 by lia.
    rewrite lookup_app_l by (rewrite length_take; lia).
    by rewrite lookup_take_lt by lia.
  - rewrite lookup_app_r by (rewrite length_take; lia).
    rewrite length_take, Nat.min_l by lia.
    destruct (decide (Z.of_nat k < s + d)) as [Hk2|Hk2].
    + rewrite bool_decide_eq_true_2 by lia.
      rewrite lookup_app_l by (rewrite length_replicate; lia).
      symmetry. apply lookup_replicate_2. lia.
    + rewrite bool_decide_eq_false_2 by lia.
      rewrite lookup_app_r by (rewrite length_replicate; lia).
      rewrite length_replicate, lookup_drop. f_equal. lia.
Qed.

(** A free run, seen as a segment of the vector. *)
Lemma free_at_segment (memory : list Z) (s d : Z) :
  0 < d -> free_at memory s d ->
  memory =
  take (Z.to_nat s) memory ++ replicate (Z.to_nat d) 0 ++
  drop (Z.to_nat (s + d)) memory.
Proof.
  intros Hd Hfree. destruct (free_at_inside memory s d Hd Hfree) as [Hs Hcap].
  apply (splice_lookup memory memory 0 s d); [lia.. | done |].
  intros k. case_bool_decide as Hk; [|done].
  destruct Hfree as [_ Hfree]. specialize (Hfree (Z.of_nat k - s) ltac:(lia)).
  by replace (Z.to_nat (s + (Z.of_nat k - s))) with k in Hfree by lia.
Qed.

(** Writing behind the vector, or before it, is out of bounds. *)
Lemma fill_oob (v stop : Z) (fuel : nat) (memory : list Z) (i : Z) :
  i < stop -> stop - i <= Z.of_nat fuel ->
  i < 0 \/ Z.of_nat (length memory) < stop ->
  fill fuel memory v i stop = OutOfBounds.
Proof.
  revert memory i. induction fuel as [|fuel IH]; intros memory i Hi Hf Hout; [lia|].
  simpl. destruct (Z.ltb_spec i stop); [|lia].
  unfold mem_write. destruct (Z.ltb_spec i 0); [done|].
  destruct (memory !! Z.to_nat i) eqn:Hcell; [|done]. simpl.
  apply lookup_lt_Some in Hcell.
  apply IH; [lia | lia | right; rewrite length_insert; lia].
Qed.

(** [deallocate] frees the cells [[start, start + size)] whatever they
    held, and nothing else; for a size that is not positive it does
    nothing.  It does not ask whether the range was ever allocated. *)
Theorem deallocate_in_range (memory : list Z) (start d : Z) :
  0 <= start -> start + d <= Z.of_nat (length memory) ->
  exists memory',
    deallocate memory start d = Done memory' /\
    length memory' = length memory /\
    (forall k : nat,
       memory' !! k =
       if bool_decide (start <= Z.of_nat k < start + d) then Some 0
       else memory !! k) /\
    (d <= 0 -> memory' = memory).
Proof.
  intros Hs Hcap.
  destruct (fill_spec 0 (start + d) (Z.to_nat d) memory start)
    as (m & Hfill & Hlen & Hget); [lia..|].
  exists m. unfold deallocate. split; [done|]. split; [done|]. split; [done|].
  intros Hd. rewrite fill_empty in Hfill by lia. by injection Hfill.
Qed.

Lemma deallocate_in_range_witness :
  exists memory',
    deallocate [1; 1; 0; 1] 1 2 = Done memory' /\
    length memory' = length [1; 1; 0; 1] /\
    (forall k : nat,
       memory' !! k =
       if bool_decide (1 <= Z.of_nat k < 1 + 2) then Some 0
       else [1; 1; 0; 1] !! k) /\
    (2 <= 0 -> memory' = [1; 1; 0; 1]).
Proof.
  apply (deallocate_in_range [1; 1; 0; 1] 1 2).
  - lia.
  - simpl. lia.
Defined.

(** [deallocate] of a non-empty range that starts before the vector or
    ends behind it writes out of bounds. *)
Theorem deallocate_out_of_range (memory : list Z) (start d : Z) :
  0 < d -> start < 0 \/ Z.of_nat (length memory) < start + d ->
  deallocate memory start d = OutOfBounds.
Proof.
  intros Hd Hout. unfold deallocate. apply fill_oob; [lia | lia | done].
Qed.

Lemma deallocate_out_of_range_witness :
  deallocate [1; 1; 0; 1] 3 2 = OutOfBounds.
Proof.
  apply (deallocate_out_of_range [1; 1; 0; 1] 3 2).
  - lia.
  - right. simpl. lia.
Defined.

Lemma allocate_nonpos_scan (memory : list Z) (d : Z) :
  int_range d -> d <= 0 -> Z.of_nat (length memory) < INT_MAX ->
  scan_bound memory d + 1 < 2 ^ 64 /\ 0 <= scan_bound memory d /\
  (forall i, 0 <= i <= scan_bound memory d ->
     exists j, free_run (Z.to_nat d) memory d i 0 = Done j) /\
  d < to_int (Z.of_nat (length memory) + 1).
Proof.
  unfold int_range, INT_MIN, INT_MAX. intros Hd Hle Hcap.
  rewrite scan_bound_fits by lia.
  rewrite to_int_small by (unfold int_range, INT_MIN, INT_MAX; lia).
  repeat split; try lia.
  intros i _. exists 0. by apply free_run_nonpos.
Qed.

(** A request of size 0 succeeds at index 0 on every airspace, also a full
    one, and marks nothing. *)
Theorem allocate_zero (memory : list Z) :
  Z.of_nat (length memory) < INT_MAX ->
  allocate memory 0 = Done (0, memory).
Proof.
  intros Hcap.
  destruct (allocate_nonpos_scan memory 0) as (HB & HB0 & Htot & Hbz);
    [unfold int_range, INT_MIN, INT_MAX; lia | lia | done |].
  destruct (scan_search memory 0 HB HB0 Htot
              (Z.to_nat (scan_bound memory 0 + 1)) 0
              (to_int (Z.of_nat (length memory) + 1)))
    as [[_ Hnone]|(s & Hs & Hscan & _ & Hnone)]; [lia..| |].
  - exfalso. apply (Hnone 0); [lia|]. by apply free_run_nonpos.
  - assert (s = 0) as ->.
    { destruct (decide (s = 0)); [done|]. exfalso.
      apply (Hnone 0); [lia|]. by apply free_run_nonpos. }
    unfold allocate. by rewrite Hscan.
Qed.

Lemma allocate_zero_witness : allocate [1; 1; 1] 0 = Done (0, [1; 1; 1]).
Proof. apply (allocate_zero [1; 1; 1]). unfold INT_MAX. simpl. lia. Defined.

(** A request of negative size is answered [-1] and changes nothing. *)
Theorem allocate_negative (memory : list Z) (d : Z) :
  int_range d -> d < 0 -> Z.of_nat (length memory) < INT_MAX ->
  allocate memory d = Done (-1, memory).
Proof.
  intros Hd Hneg Hcap.
  destruct (allocate_nonpos_scan memory d) as (HB & HB0 & Htot & Hbz);
    [done | lia | done |].
  destruct (scan_search memory d HB HB0 Htot
              (Z.to_nat (scan_bound memory d + 1)) 0
              (to_int (Z.of_nat (length memory) + 1)))
    as [[Hscan _]|(s & _ & _ & Hrun & _)]; [lia..| |].
  - unfold allocate. by rewrite Hscan.
  - rewrite free_run_nonpos in Hrun by lia. injection Hrun. lia.
Qed.

Lemma allocate_negative_witness : allocate [0; 0; 0] (-2) = Done (-1, [0; 0; 0]).
Proof.
  apply (allocate_negative [0; 0; 0] (-2)).
  - unfold int_range, INT_MIN, INT_MAX. lia.
  - lia.
  - unfold INT_MAX. simpl. lia.
Defined.

(** The safety check never passes a size larger than the vector, so a
    request that passed it makes [allocate] complete: the scan stays
    inside the vector. *)
Theorem isSafe_guards_allocate (memory : list Z) (d : Z) :
  int_range d -> Z.of_nat (length memory) < INT_MAX ->
  isSafe memory d = true ->
  d <= Z.of_nat (length memory) /\
  exists s memory', allocate memory d = Done (s, memory').
Proof.
  intros Hd Hcap Hsafe. apply isSafe_spec in Hsafe.
  pose proof (free_units_le_length memory) as Hle.
  split; [lia|]. apply allocate_total; [done | lia | done].
Qed.

Lemma isSafe_guards_allocate_witness :
  2 <= Z.of_nat (length [0; 1; 0]) /\
  exists s memory', allocate [0; 1; 0] 2 = Done (s, memory').
Proof.
  apply (isSafe_guards_allocate [0; 1; 0] 2).
  - unfold int_range, INT_MIN, INT_MAX. lia.
  - unfold INT_MAX. simpl. lia.
  - reflexivity.
Defined.

(** On an airspace that is all free, a request of positive size that fits
    is placed at index 0. *)
Lemma allocate_all_free (n : nat) (d : Z) :
  0 < d <= Z.of_nat n -> Z.of_nat n < INT_MAX ->
  allocate (replicate n 0) d =
  Done (0, replicate (Z.to_nat d) 1 ++ replicate (n - Z.to_nat d) 0).
Proof.
  intros Hd Hcap.
  destruct (allocate_fits (replicate n 0) d) as (s & m & Halloc & Hiff & _ & Hs);
    [rewrite length_replicate; lia..|].
  assert (Hfree0 : free_at (replicate n 0) 0 d).
  { split; [lia|]. intros k Hk. apply lookup_replicate_2. lia. }
  assert (s <> -1) as Hne.
  { intros ->. destruct Hiff as [Hno _]. by apply (Hno eq_refl 0). }
  destruct (Hs Hne) as ([Hs0 _] & Hmin & Hlen & Hget).
  specialize (Hmin 0 Hfree0). assert (s = 0) as -> by lia.
  rewrite Halloc. do 2 f_equal. apply list_eq. intros k. rewrite Hget.
  destruct (decide (Z.of_nat k < d)) as [Hk|Hk].
  - rewrite bool_decide_eq_true_2 by lia.
    rewrite lookup_app_l by (rewrite length_replicate; lia).
    symmetry. apply lookup_replicate_2. lia.
  - rewrite bool_decide_eq_false_2 by lia.
    rewrite lookup_app_r by (rewrite length_replicate; lia).
    rewrite length_replicate.
    destruct (decide (k < n)%nat).
    + rewrite !lookup_replicate_2 by lia. done.
    + rewrite !lookup_ge_None_2; [done | rewrite length_replicate; lia..].
Qed.

(** A successful allocation of [d > 0] cells lowers the number of free
    units by exactly [d], and the release that follows gives them back. *)
Theorem allocate_takes_d_units (memory : list Z) (d s : Z) (memory' : list Z) :
  0 < d -> allocate memory d = Done (s, memory') -> s <> -1 ->
  free_units memory' = free_units memory - d /\
  length memory' = length memory /\
  exists memory'',
    deallocate memory' s d = Done memory'' /\
    free_units memory'' = free_units memory' + d.
Proof.
  intros Hd Halloc Hs.
  apply allocate_Done_inv in Halloc as [[? _]|(_ & Hfree & Hfill)]; [done|].
  destruct (free_at_inside memory s d Hd Hfree) as [Hs0 Hcap].
  destruct (fill_run memory 1 s d Hfree) as (m & Hm & Hlen & Hget).
  rewrite Hm in Hfill. injection Hfill as <-.
  assert (Hunits : free_units m = free_units memory - d).
  { rewrite (splice_lookup memory m 1 s d) by (done || lia).
    rewrite (free_at_segment memory s d Hd Hfree) at 3.
    rewrite !free_units_app, free_units_replicate_0, free_units_replicate_1. lia. }
  split; [done|]. split; [done|].
  exists memory. split; [unfold deallocate; by apply fill_undo | lia].
Qed.

Lemma allocate_takes_d_units_witness :
  free_units [0; 1; 0; 0; 1; 1; 1; 1] = free_units [0; 1; 0; 0; 1; 0; 0; 0] - 3 /\
  length [0; 1; 0; 0; 1; 1; 1; 1] = length [0; 1; 0; 0; 1; 0; 0; 0] /\
  exists memory'',
    deallocate [0; 1; 0; 0; 1; 1; 1; 1] 5 3 = Done memory'' /\
    free_units memory'' = free_units [0; 1; 0; 0; 1; 1; 1; 1] + 3.
Proof.
  apply (allocate_takes_d_units [0; 1; 0; 0; 1; 0; 0; 0] 3 5 [0; 1; 0; 0; 1; 1; 1; 1]).
  - lia.
  - reflexivity.
  - lia.
Defined.

(* ===================================================================== *)
(** * Further properties of the scheduler *)
(* ===================================================================== *)

(** [compare] is a strict weak order, which is what [std::sort] asks of
    its comparator: it is irreflexive, asymmetric and transitive, and two
    planes neither of which goes before the other agree on all three
    keys, so that being tied is transitive too. *)
Theorem compare_strict_weak_order :
  (forall a, compare a a = false) /\
  (forall a b, compare a b = true -> compare b a = false) /\
  (forall a b c, compare a b = true -> compare b c = true -> compare a c = true) /\
  (forall a b,
     compare a b = false /\ compare b a = false <->
     emergency a = emergency b /\ fuelLevel a = fuelLevel b /\
     landingTime a = landingTime b).
Proof.
  split; [|split; [|split]].
  - intros a. apply not_true_is_false. rewrite compare_precedes.
    unfold precedes. destruct (emergency a); intuition (try congruence; try lia).
  - apply compare_asym.
  - intros a b c. rewrite !compare_precedes. unfold precedes.
    destruct (emergency a), (emergency b), (emergency c);
      intuition (try congruence; try lia).
  - intros a b.
    assert (Hf : forall x y, compare x y = false <-> ~ precedes x y).
    { intros x y. rewrite <- compare_precedes. destruct (compare x y); split; congruence. }
    rewrite !Hf. unfold precedes.
    destruct (emergency a), (emergency b);
      intuition (try congruence; try lia).
Qed.

Lemma compare_strict_weak_order_witness :
  compare (Plane5 2 1 4 3 2) (mkPlane 6 1 1 2 1 true) = false.
Proof.
  apply (proj1 (proj2 compare_strict_weak_order)
           (mkPlane 6 1 1 2 1 true) (Plane5 2 1 4 3 2)).
  reflexivity.
Defined.

Lemma move_arrived_filter (time : Z) (incoming readyQueue : list Plane) :
  move_arrived time incoming readyQueue =
  (filter (fun p => time < arrivalTime p) incoming,
   readyQueue ++ filter (fun p => arrivalTime p <= time) incoming).
Proof.
  revert readyQueue. induction incoming as [|p rest IH]; intros q; simpl.
  - by rewrite app_nil_r.
  - rewrite !filter_cons. destruct (Z.leb_spec (arrivalTime p) time).
    + rewrite IH. unfold addPlane.
      rewrite decide_False by lia. rewrite decide_True by lia.
      by rewrite <- app_assoc.
    + rewrite IH. rewrite decide_True by lia. by rewrite decide_False by lia.
Qed.

(** The admission loop is a stable partition of [incoming] by
    [arrivalTime <= time]: the planes that have arrived are appended to the
    queue in their input order, the others stay in [incoming] in their
    input order, and no plane is lost or copied. *)
Theorem move_arrived_partition (time : Z) (incoming readyQueue : list Plane) :
  move_arrived time incoming readyQueue =
  (filter (fun p => time < arrivalTime p) incoming,
   readyQueue ++ filter (fun p => arrivalTime p <= time) incoming) /\
  Permutation
    (filter (fun p => time < arrivalTime p) incoming ++
     readyQueue ++ filter (fun p => arrivalTime p <= time) incoming)
    (incoming ++ readyQueue).
Proof.
  split; [apply move_arrived_filter|].
  apply (move_arrived_perm time). apply move_arrived_filter.
Qed.

(** Pushing a plane that goes strictly before every queued plane and then
    asking for the next plane gives that plane back, and leaves the planes
    that were queued. *)
Theorem getNextPlane_after_addPlane (readyQueue : list Plane) (p : Plane) :
  (forall x, x ∈ readyQueue -> precedes p x) ->
  exists rest,
    getNextPlane (addPlane readyQueue p) = (p, rest) /\
    Permutation rest readyQueue.
Proof.
  intros Hfirst.
  destruct (getNextPlane_with_min sort sort_meets_contract (addPlane readyQueue p))
    as (cur & rest & Hget & Hperm & Hmin).
  { unfold addPlane. by destruct readyQueue. }
  assert (Hcur : cur ∈ addPlane readyQueue p).
  { rewrite <- Hperm. by left. }
  assert (cur = p) as ->.
  { unfold addPlane in Hcur. apply elem_of_app in Hcur as [Hin|Hin].
    - exfalso. apply (Hmin p); [|by apply Hfirst].
      unfold addPlane. apply elem_of_app. right. by left.
    - apply list_elem_of_singleton in Hin. done. }
  exists rest. split; [done|].
  unfold addPlane in Hperm. rewrite <- Permutation_cons_append in Hperm.
  by apply Permutation_cons_inv in Hperm.
Qed.

Lemma getNextPlane_after_addPlane_witness :
  exists rest,
    getNextPlane (addPlane [Plane5 1 0 5 4 3; Plane5 2 1 4 3 2]
                           (mkPlane 6 1 1 2 1 true)) =
    (mkPlane 6 1 1 2 1 true, rest) /\
    Permutation rest [Plane5 1 0 5 4 3; Plane5 2 1 4 3 2].
Proof.
  apply (getNextPlane_after_addPlane [Plane5 1 0 5 4 3; Plane5 2 1 4 3 2]
           (mkPlane 6 1 1 2 1 true)).
  intros x Hx. left. split; [reflexivity|].
  apply elem_of_cons in Hx as [->|Hx]; [reflexivity|].
  apply elem_of_cons in Hx as [->|Hx]; [reflexivity|].
  by apply elem_of_nil in Hx.
Defined.

(** The Priority column agrees with the scheduler: a plane shown as
    "Emergency" goes before every plane that is not, and among the others a
    plane shown as "High" goes before every plane shown as "Normal". *)
Theorem priority_label_agrees_with_compare (a b : Plane) :
  (priority_label a = "Emergency" /\ priority_label b <> "Emergency" \/
   priority_label a = "High" /\ priority_label b = "Normal") ->
  compare a b = true.
Proof.
  unfold priority_label. rewrite compare_precedes. unfold precedes.
  destruct (emergency a), (emergency b);
    destruct (Z.leb_spec (fuelLevel a) 2), (Z.leb_spec (fuelLevel b) 2);
    intros [[H1 H2]|[H1 H2]]; try done; try (right; left; split; [done | lia]).
  all: by left.
Qed.

Lemma priority_label_agrees_with_compare_witness :
  compare (Plane5 4 3 1 2 1) (Plane5 3 2 6 5 4) = true.
Proof.
  apply (priority_label_agrees_with_compare (Plane5 4 3 1 2 1) (Plane5 3 2 6 5 4)).
  right. split; reflexivity.
Defined.

(* ===================================================================== *)
(** * Further properties of the engine *)
(* ===================================================================== *)

Lemma isSafe_free_pool (d : Z) : isSafe (replicate 20 0) d = true <-> d <= 20.
Proof. rewrite isSafe_spec. by rewrite free_units_replicate_0. Qed.

(** One iteration on the engine's airspace, which is free when the
    iteration starts: what happens depends on the [id] and the [size] of
    the extracted plane alone. *)
Lemma sim_step_free_pool (st : SimState) :
  state_wf st -> st_memory st = replicate 20 0 ->
  exists incoming' q1 cur rest ev st',
    move_arrived (st_time st) (st_incoming st) (st_readyQueue st) = (incoming', q1) /\
    getNextPlane q1 = (cur, rest) /\
    ((q1 = [] /\ cur = sentinel /\ rest = []) \/ Permutation (cur :: rest) q1) /\
    sim_step st = Done (ev, st') /\
    state_wf st' /\ st_memory st' = replicate 20 0 /\
    st_incoming st' = incoming' /\
    ((id cur = -1 /\ ev = NoPlanes (st_time st) /\
      st_readyQueue st' = rest /\ st_time st' = st_time st + 1) \/
     (id cur <> -1 /\ 20 < size cur /\ ev = Unsafe (st_time st) cur /\
      st_readyQueue st' = rest ++ [cur] /\ st_time st' = st_time st + 1) \/
     (id cur <> -1 /\ size cur < 0 /\ ev = NoSpace (st_time st) cur /\
      st_readyQueue st' = rest ++ [cur] /\ st_time st' = st_time st + 1) \/
     (id cur <> -1 /\ 0 <= size cur <= 20 /\ ev = Landing (st_time st) cur /\
      Permutation (cur :: rest) q1 /\
      st_readyQueue st' = rest /\ st_time st' = st_time st + landingTime cur)).
Proof.
  intros Hwf Hmem.
  destruct (step_inputs st Hwf)
    as (incoming' & q1 & cur & rest & Hmove & Hget & Hinc & Hcur & Hrest & Hlen & Hq1).
  assert (Hshape : (q1 = [] /\ cur = sentinel /\ rest = []) \/ Permutation (cur :: rest) q1).
  { destruct (getNextPlane_cases _ _ _ Hget) as [?|[_ ?]]; [by left | by right]. }
  assert (Hcap : Z.of_nat (length (st_memory st)) < INT_MAX) by apply Hwf.
  exists incoming', q1, cur, rest.
  assert (Hsize : int_range (size cur)) by apply Hcur.
  destruct (decide (id cur = -1)) as [Hid|Hid].
  { eexists _, _. split; [done|]. split; [done|]. split; [done|].
    split; [exact (sim_step_idle st incoming' q1 cur rest Hmove Hget Hid)|].
    simpl. repeat split; try done. by left. }
  assert (Hreal : Permutation (cur :: rest) q1).
  { destruct Hshape as [(_ & -> & _)|?]; done. }
  assert (Hback : Forall plane_wf (rest ++ [cur])).
  { apply Forall_app. split; [done | by constructor]. }
  unfold sim_step. cbv zeta. rewrite Hmove, Hget.
  destruct (Z.eqb_spec (id cur) (-1)); [done|].
  destruct (Z.le_gt_cases (size cur) 20) as [Hle|Hgt].
  - assert (Hyes : isSafe (st_memory st) (size cur) = true).
    { rewrite Hmem. by apply isSafe_free_pool. }
    rewrite Hyes. simpl.
    destruct (Z.le_gt_cases 0 (size cur)) as [Hpos|Hneg].
    + assert (Halloc : exists memory',
                allocate (st_memory st) (size cur) = Done (0, memory') /\
                deallocate memory' 0 (size cur) = Done (st_memory st)).
      { rewrite Hmem. destruct (decide (size cur = 0)) as [->|Hnz].
        - exists (replicate 20 0). split; reflexivity.
        - eexists. split; [apply allocate_all_free; [lia | done]|].
          pose proof (allocate_all_free 20 (size cur) ltac:(lia) ltac:(done)) as Ha.
          apply allocate_Done_inv in Ha as [[? _]|(_ & Hfree & Hfill)]; [done|].
          unfold deallocate. by apply fill_undo. }
      destruct Halloc as (memory' & -> & Hde). simpl. rewrite Hde. simpl.
      eexists _, _. split; [done|]. split; [done|]. split; [done|].
      split; [done|]. simpl. repeat split; try done.
      right. right. right. done.
    + rewrite allocate_negative by (done || lia). simpl.
      eexists _, _. split; [done|]. split; [done|]. split; [done|].
      split; [done|]. simpl. repeat split; try done.
      right. right. left. done.
  - assert (Hno : isSafe (st_memory st) (size cur) = false).
    { rewrite Hmem. apply not_true_is_false. rewrite isSafe_free_pool. lia. }
    rewrite Hno. simpl.
    eexists _, _. split; [done|]. split; [done|]. split; [done|].
    split; [done|]. simpl. repeat split; try done.
    right. left. done.
Qed.

Lemma sim_steps_by_size (n : nat) (st : SimState) (es : list Event) (st' : SimState) :
  state_wf st -> st_memory st = replicate 20 0 ->
  sim_steps n st = Done (es, st') -> Forall event_by_size es.
Proof.
  revert st es st'. induction n as [|n IH]; intros st es st' Hwf Hmem; simpl.
  - by intros [= <- <-].
  - destruct (running st); [|by intros [= <- <-]].
    destruct (sim_step_free_pool st Hwf Hmem)
      as (inc' & q1 & cur & rest & ev & st1 & _ & _ & _ & Hstep & Hwf1 & Hmem1 & _ & Hcase).
    rewrite Hstep. simpl.
    destruct (sim_steps n st1) as [[es1 st2]| |] eqn:Hrec; simpl; try done.
    intros [= <- <-]. constructor; [|by eapply IH].
    destruct Hcase as [(_ & -> & _)|[(? & ? & -> & _)|[(? & ? & -> & _)|(? & ? & -> & _)]]];
      simpl; done.
Qed.

(** On the engine's 20-cell airspace the console line of an iteration
    tells the size of the plane: "Unsafe" is printed only for a plane
    larger than 20, "No space" only for a plane of negative size, and a
    plane lands exactly when its size is between 0 and 20.  A plane of
    positive size is never delayed for lack of a contiguous run. *)
Theorem events_tell_the_size (incoming : list Plane) (n : nat)
    (es : list Event) (st : SimState) :
  Forall plane_wf incoming ->
  sim_steps n (init incoming) = Done (es, st) ->
  Forall event_by_size es.
Proof.
  intros Hwf. apply sim_steps_by_size; [by apply init_wf | done].
Qed.

Lemma events_tell_the_size_witness :
  Forall event_by_size
    [Unsafe 0 (Plane5 7 0 3 25 3); Unsafe 1 (Plane5 7 0 3 25 3);
     Unsafe 2 (Plane5 7 0 3 25 3)].
Proof.
  apply (events_tell_the_size [Plane5 7 0 3 25 3] 3 _
           (mkState [] [Plane5 7 0 3 25 3] (MemoryManager 20) 3 [])).
  - repeat constructor; unfold int_range, INT_MIN, INT_MAX; simpl; lia.
  - reflexivity.
Defined.

Lemma waits_cons (e : Event) (es : list Event) :
  waits (e :: es) = if decide (gantt_entry e = []) then e :: waits es else waits es.
Proof. unfold waits. by rewrite filter_cons. Qed.

Lemma sim_steps_clock (n : nat) (st : SimState) (es : list Event) (st' : SimState) :
  state_wf st ->
  sim_steps n st = Done (es, st') ->
  st_time st' =
  st_time st + Z.of_nat (length (waits es)) + total_landing (landed es).
Proof.
  revert st es st'. induction n as [|n IH]; intros st es st' Hwf; simpl.
  - intros [= <- <-]. simpl. lia.
  - destruct (running st); [|intros [= <- <-]; simpl; lia].
    destruct (sim_step_cases st Hwf)
      as (inc' & q1 & cur & rest & ev & st1 & _ & _ & Hstep & Hwf1 & _ & _ & _ & Hcase & _).
    rewrite Hstep. simpl.
    destruct (sim_steps n st1) as [[es1 st2]| |] eqn:Hrec; simpl; try done.
    intros [= <- <-]. rewrite (IH _ _ _ Hwf1 Hrec), waits_cons.
    destruct Hcase as [(-> & _ & _ & Ht)|[([->| ->] & _ & _ & Ht)|(-> & _ & _ & _ & _ & Ht)]];
      rewrite Ht; simpl; lia.
Qed.

(** The clock accounts for every iteration: at any point of a run in
    which no clock update has left [int], it equals the number of
    iterations that landed nothing plus the landing times of the planes
    that landed. *)
Theorem clock_is_waits_plus_landings (incoming : list Plane) (n : nat)
    (es : list Event) (st : SimState) :
  Forall plane_wf incoming ->
  sim_steps n (init incoming) = Done (es, st) ->
  Forall event_clock_ok es ->
  st_time st = Z.of_nat (length (waits es)) + total_landing (landed es).
Proof.
  intros Hwf Hrun _.
  rewrite (sim_steps_clock n (init incoming) es st (init_wf _ Hwf) Hrun).
  simpl. lia.
Qed.

Lemma clock_is_waits_plus_landings_witness :
  st_time (mkState [] [] (MemoryManager 20) 5 [(1, 3)]) =
  Z.of_nat (length (waits [NoPlanes 0; NoPlanes 1; Landing 2 (Plane5 1 2 5 4 3)])) +
  total_landing (landed [NoPlanes 0; NoPlanes 1; Landing 2 (Plane5 1 2 5 4 3)]).
Proof.
  apply (clock_is_waits_plus_landings [Plane5 1 2 5 4 3] 3).
  - repeat constructor; unfold int_range, INT_MIN, INT_MAX; simpl; lia.
  - reflexivity.
  - repeat constructor; unfold int_range, INT_MIN, INT_MAX; simpl; lia.
Defined.

Lemma sim_steps_chart_exact (n : nat) (st : SimState) (es : list Event) (st' : SimState) :
  state_wf st ->
  sim_steps n st = Done (es, st') -> waits es = [] ->
  gantt_rows (st_time st) (concat (map gantt_entry es)) = served es.
Proof.
  revert st es st'. induction n as [|n IH]; intros st es st' Hwf; simpl.
  - by intros [= <- <-].
  - destruct (running st); [|by intros [= <- <-]].
    destruct (sim_step_cases st Hwf)
      as (inc' & q1 & cur & rest & ev & st1 & _ & _ & Hstep & Hwf1 & _ & _ & _ & Hcase & _).
    rewrite Hstep. simpl.
    destruct (sim_steps n st1) as [[es1 st2]| |] eqn:Hrec; simpl; try done.
    intros [= <- <-]. rewrite waits_cons.
    destruct Hcase as [(-> & _)|[([->| ->] & _)|(-> & _ & _ & _ & _ & Ht)]];
      simpl; try done.
    intros Hw. unfold served. simpl. f_equal.
    rewrite <- Ht. by apply (IH st1 es1 st2).
Qed.

Lemma served_in_range (es : list Event) :
  Forall event_clock_ok es -> Forall row_in_range (served es).
Proof.
  unfold served. induction 1 as [|e es [H1 H2] _ IH]; [constructor|].
  destruct e; simpl; try done. constructor; [by split | done].
Qed.

(** When no iteration of a completed run was idle or deferred and no clock
    update left [int], the chart printed at the end is right: its rows
    are the landings with their simulated start and end times, all of
    them [int]s. *)
Theorem chart_exact_without_waits (fuel : nat) (incoming : list Plane)
    (es : list Event) (rows : list (Z * Z * Z)) :
  Forall plane_wf incoming ->
  simulate fuel incoming = Done (es, rows) ->
  waits es = [] ->
  Forall event_clock_ok es ->
  rows = served es /\ Forall row_in_range rows.
Proof.
  intros Hwf. unfold simulate.
  destruct (sim_steps_inv fuel (init incoming) (init_wf _ Hwf))
    as (es' & st & Hrun & _ & _ & Hg).
  rewrite Hrun. simpl. destruct (running st); [done|]. intros [= <- <-] Hw Hok.
  rewrite Hg. simpl.
  pose proof (sim_steps_chart_exact fuel (init incoming) es' st
                (init_wf _ Hwf) Hrun Hw) as Hrows.
  simpl in Hrows. rewrite Hrows.
  split; [done | by apply served_in_range].
Qed.

Lemma chart_exact_without_waits_witness :
  [(1, 0, 3); (4, 3, 4); (5, 4, 7); (2, 7, 9); (3, 9, 13)] =
  served [Landing 0 (Plane5 1 0 5 4 3); Landing 3 (Plane5 4 3 1 2 1);
          Landing 4 (Plane5 5 4 2 3 3); Landing 7 (Plane5 2 1 4 3 2);
          Landing 9 (Plane5 3 2 6 5 4)] /\
  Forall row_in_range [(1, 0, 3); (4, 3, 4); (5, 4, 7); (2, 7, 9); (3, 9, 13)].
Proof.
  apply (chart_exact_without_waits 5 normalPlanes).
  - repeat constructor; unfold int_range, INT_MIN, INT_MAX; simpl; lia.
  - reflexivity.
  - reflexivity.
  - repeat constructor; unfold int_range, INT_MIN, INT_MAX; simpl; lia.
Defined.

Lemma simulate_chart_witness :
  [(1, 0, 3)] =
  gantt_rows 0
    (map (fun r => (r.1.1, r.2 - r.1.2))
         (served [NoPlanes 0; NoPlanes 1; Landing 2 (Plane5 1 2 5 4 3)])).
Proof.
  apply (simulate_chart 3 [Plane5 1 2 5 4 3]).
  - repeat constructor; unfold int_range, INT_MIN, INT_MAX; simpl; lia.
  - reflexivity.
  - repeat constructor; unfold int_range, INT_MIN, INT_MAX; simpl; lia.
  - repeat constructor; unfold int_range, INT_MIN, INT_MAX; simpl; lia.
Defined.

Lemma running_elem (st : SimState) (p : Plane) :
  p ∈ st_incoming st ++ st_readyQueue st -> running st = true.
Proof.
  unfold running. intros Hin.
  destruct (st_incoming st) as [|a l]; [|done].
  destruct (st_readyQueue st) as [|b q]; [|done].
  by apply elem_of_nil in Hin.
Qed.

Lemma running_false (st : SimState) :
  running st = false -> st_incoming st = [] /\ st_readyQueue st = [].
Proof.
  unfold running.
  destruct (st_incoming st) as [|a l]; [|done].
  by destruct (st_readyQueue st) as [|b q].
Qed.

Lemma sim_steps_keeps_oversized (p : Plane) (n : nat) (st : SimState) :
  id p <> -1 -> 20 < size p ->
  state_wf st -> st_memory st = replicate 20 0 ->
  p ∈ st_incoming st ++ st_readyQueue st ->
  exists es st',
    sim_steps n st = Done (es, st') /\
    p ∈ st_incoming st' ++ st_readyQueue st' /\
    p ∉ landed es.
Proof.
  intros Hid Hbig. revert st. induction n as [|n IH]; intros st Hwf Hmem Hin; simpl.
  - exists [], st. split; [done|]. split; [done|]. apply not_elem_of_nil.
  - rewrite (running_elem st p Hin).
    destruct (sim_step_free_pool st Hwf Hmem)
      as (inc' & q1 & cur & rest & ev & st1 & Hmove & Hget & Hshape & Hstep & Hwf1
          & Hmem1 & Hinc1 & Hcase).
    assert (Hin1 : p ∈ inc' ++ q1).
    { by rewrite (move_arrived_perm _ _ _ _ _ Hmove). }
    assert (Hkeep : p ∈ st_incoming st1 ++ st_readyQueue st1 /\ p ∉ landed [ev]).
    { rewrite Hinc1. apply elem_of_app in Hin1 as [Hin1|Hin1].
      - split; [apply elem_of_app; by left|].
        destruct Hcase as [(_ & -> & _)|[(_ & _ & -> & _)|[(_ & _ & -> & _)|(_ & ? & -> & _)]]];
          simpl; try apply not_elem_of_nil.
        rewrite list_elem_of_singleton. intros ->. lia.
      - destruct Hshape as [(-> & _)|Hperm]; [by apply elem_of_nil in Hin1|].
        rewrite <- Hperm in Hin1.
        destruct Hcase as [(Hc & -> & -> & _)|[(_ & _ & -> & -> & _)|[(_ & _ & -> & -> & _)|(_ & ? & -> & _ & -> & _)]]];
          simpl.
        + split; [|apply not_elem_of_nil]. apply elem_of_app. right.
          apply elem_of_cons in Hin1 as [->|?]; [done | done].
        + split; [|apply not_elem_of_nil]. apply elem_of_app. right.
          apply elem_of_app. apply elem_of_cons in Hin1 as [->|?]; [right; by left | by left].
        + split; [|apply not_elem_of_nil]. apply elem_of_app. right.
          apply elem_of_app. apply elem_of_cons in Hin1 as [->|?]; [right; by left | by left].
        + split.
          * apply elem_of_app. right. apply elem_of_cons in Hin1 as [->|?]; [lia | done].
          * rewrite list_elem_of_singleton. intros ->. lia. }
    destruct Hkeep as [Hin2 Hnot].
    destruct (IH st1 Hwf1 Hmem1 Hin2) as (es & st2 & Hrun & Hin3 & Hnot3).
    exists (ev :: es), st2. rewrite Hstep. simpl. rewrite Hrun. simpl.
    split; [done|]. split; [done|].
    destruct ev; simpl in *; try done.
    intros [->|?]%elem_of_cons; [|done]. apply Hnot. by left.
Qed.

(** A plane larger than the 20-cell airspace never lands and is never
    given up: whatever the number of iterations, it is still waiting and
    the loop test still holds, so [simulate] does not return. *)
Theorem oversized_plane_never_ends (incoming : list Plane) (p : Plane) (fuel : nat) :
  Forall plane_wf incoming ->
  p ∈ incoming -> id p <> -1 -> 20 < size p ->
  simulate fuel incoming = OutOfFuel /\
  exists es st,
    sim_steps fuel (init incoming) = Done (es, st) /\
    p ∈ st_incoming st ++ st_readyQueue st /\ p ∉ landed es.
Proof.
  intros Hwf Hin Hid Hbig.
  destruct (sim_steps_keeps_oversized p fuel (init incoming) Hid Hbig
              (init_wf _ Hwf) eq_refl) as (es & st & Hrun & Hin' & Hnot).
  { simpl. by rewrite app_nil_r. }
  split; [|by exists es, st].
  unfold simulate. rewrite Hrun. simpl. by rewrite (running_elem st p Hin').
Qed.

Lemma oversized_plane_never_ends_witness :
  simulate 50 [Plane5 1 0 5 4 3; Plane5 7 0 3 25 3] = OutOfFuel /\
  exists es st,
    sim_steps 50 (init [Plane5 1 0 5 4 3; Plane5 7 0 3 25 3]) = Done (es, st) /\
    Plane5 7 0 3 25 3 ∈ st_incoming st ++ st_readyQueue st /\
    Plane5 7 0 3 25 3 ∉ landed es.
Proof.
  apply (oversized_plane_never_ends [Plane5 1 0 5 4 3; Plane5 7 0 3 25 3]
           (Plane5 7 0 3 25 3) 50).
  - repeat constructor; unfold int_range, INT_MIN, INT_MAX; simpl; lia.
  - right. left.
  - simpl. lia.
  - simpl. lia.
Defined.

Lemma last_arrival_ge (l : list Plane) (p : Plane) :
  p ∈ l -> arrivalTime p <= last_arrival l.
Proof.
  induction l as [|q l IH]; [by intros ?%elem_of_nil|].
  intros [->|Hin]%elem_of_cons; simpl; [lia|]. specialize (IH Hin). lia.
Qed.

Lemma last_arrival_nonneg (l : list Plane) : 0 <= last_arrival l.
Proof. induction l as [|q l IH]; simpl; lia. Qed.

Lemma last_arrival_mono (l1 l2 : list Plane) :
  (forall p, p ∈ l1 -> p ∈ l2) -> last_arrival l1 <= last_arrival l2.
Proof.
  induction l1 as [|q l1 IH]; intros Hsub; simpl.
  - apply last_arrival_nonneg.
  - assert (arrivalTime q <= last_arrival l2) by (apply last_arrival_ge, Hsub; by left).
    assert (last_arrival l1 <= last_arrival l2).
    { apply IH. intros p Hp. apply Hsub. by right. }
    lia.
Qed.

Lemma total_landing_app (l1 l2 : list Plane) :
  total_landing (l1 ++ l2) = total_landing l1 + total_landing l2.
Proof. induction l1 as [|p l1 IH]; simpl; lia. Qed.

Lemma total_landing_perm (l1 l2 : list Plane) :
  Permutation l1 l2 -> total_landing l1 = total_landing l2.
Proof. induction 1; simpl; lia. Qed.

Lemma total_landing_nonneg (l : list Plane) :
  Forall servable l -> 0 <= total_landing l.
Proof.
  induction 1 as [|p l (_ & _ & _ & Hp) _ IH]; simpl; lia.
Qed.

Lemma gantt_of_landed (es : list Event) :
  concat (map gantt_entry es) = map (fun p => (id p, landingTime p)) (landed es).
Proof.
  unfold landed. induction es as [|e es IH]; [done|].
  destruct e; simpl; by rewrite IH.
Qed.

(** A chart of landing times that are not negative stays between its
    start and its start plus their sum. *)
Lemma gantt_rows_in_range (ps : list Plane) (t : Z) :
  0 <= t -> Forall servable ps -> t + total_landing ps <= INT_MAX ->
  Forall row_in_range (gantt_rows t (map (fun p => (id p, landingTime p)) ps)).
Proof.
  intros Ht Hs. revert t Ht.
  induction Hs as [|p ps (_ & _ & _ & Hp) Hps IH]; intros t Ht Hsum; simpl.
  - constructor.
  - pose proof (total_landing_nonneg ps Hps) as Hnn. simpl in Hsum.
    constructor.
    + unfold row_in_range, int_range, INT_MIN, INT_MAX in *. simpl. lia.
    + apply IH; lia.
Qed.

(** With servable planes only, the run ends within the number of planes
    plus the time still to pass until the last arrival, and its clock
    never passes the later of "now" and the last arrival, plus the landing
    times still to come. *)
Lemma sim_steps_to_end (fuel : nat) (st : SimState) :
  state_wf st -> st_memory st = replicate 20 0 ->
  Forall servable (st_incoming st ++ st_readyQueue st) ->
  (pending st + Z.to_nat (last_arrival (st_incoming st) - st_time st) <= fuel)%nat ->
  0 <= st_time st ->
  Z.max (st_time st) (last_arrival (st_incoming st)) +
  total_landing (st_incoming st ++ st_readyQueue st) <= INT_MAX ->
  exists es st',
    sim_steps fuel st = Done (es, st') /\ running st' = false /\
    Permutation (landed es) (st_incoming st ++ st_readyQueue st) /\
    Forall (fun e => (exists t, e = NoPlanes t) \/ exists t p, e = Landing t p) es /\
    Forall event_clock_ok es.
Proof.
  revert st. induction fuel as [|fuel IH]; intros st Hwf Hmem Hserv Hfuel Ht0 Hmax.
  - unfold pending in Hfuel.
    destruct (st_incoming st) as [|a l] eqn:Hi; [|simpl in Hfuel; lia].
    destruct (st_readyQueue st) as [|b q] eqn:Hq; [|simpl in Hfuel; lia].
    exists [], st. simpl. split; [done|]. unfold running. rewrite Hi, Hq.
    split; [done|]. split; [done|]. split; constructor.
  - simpl. destruct (running st) eqn:Hrun.
    2:{ destruct (running_false st Hrun) as [Hi Hq].
        exists [], st. rewrite Hi, Hq. split; [done|]. split; [done|].
        split; [done|]. split; constructor. }
    destruct (sim_step_free_pool st Hwf Hmem)
      as (inc' & q1 & cur & rest & ev & st1 & Hmove & Hget & Hshape & Hstep & Hwf1
          & Hmem1 & Hinc1 & Hcase).
    pose proof (move_arrived_perm _ _ _ _ _ Hmove) as Hperm.
    pose proof (move_arrived_filter (st_time st) (st_incoming st) (st_readyQueue st))
      as Hfil.
    rewrite Hmove in Hfil. injection Hfil as Hinc' Hq1.
    assert (Hsub : forall p, p ∈ inc' -> p ∈ st_incoming st /\ st_time st < arrivalTime p).
    { intros p Hp. rewrite Hinc' in Hp. apply list_elem_of_filter in Hp. tauto. }
    assert (Hla : last_arrival inc' <= last_arrival (st_incoming st)).
    { apply last_arrival_mono. intros p Hp. by apply Hsub. }
    assert (Hlen : (length inc' + length q1 = pending st)%nat).
    { apply Permutation_length in Hperm. by rewrite !length_app in Hperm. }
    assert (Hserv1 : Forall servable (inc' ++ q1)) by by rewrite Hperm.
    pose proof (total_landing_perm _ _ Hperm) as Htot.
    rewrite total_landing_app in Htot.
    apply Forall_app in Hserv1 as [Hsinc Hsq1].
    pose proof (total_landing_nonneg _ Hsinc) as Hnninc.
    pose proof (total_landing_nonneg _ Hsq1) as Hnnq1.
    assert (Hnext : exists es st2,
              sim_steps fuel st1 = Done (es, st2) /\ running st2 = false /\
              Permutation (landed [ev] ++ landed es) (inc' ++ q1) /\
              Forall (fun e => (exists t, e = NoPlanes t) \/
                               exists t p, e = Landing t p) (ev :: es) /\
              Forall event_clock_ok (ev :: es)).
    { destruct Hshape as [(Hq1e & Hcur & Hreste)|Hpq].
      - (* nothing is ready: an idle step *)
        destruct Hcase as [(_ & -> & Hq' & Ht)|[(Hc & _)|[(Hc & _)|(Hc & _)]]];
          [|by rewrite Hcur in Hc..].
        assert (Hne : inc' <> []).
        { intros Hnil. rewrite Hnil, Hq1e in Hlen. simpl in Hlen.
          unfold pending in Hlen. unfold running in Hrun.
          destruct (st_incoming st); [|done]. by destruct (st_readyQueue st). }
        assert (Hlate : st_time st < last_arrival inc').
        { destruct inc' as [|a l]; [done|].
          assert (Ha : a ∈ a :: l) by by left.
          pose proof (last_arrival_ge _ _ Ha). destruct (Hsub a Ha). lia. }
        rewrite Hq1e in Htot. simpl in Htot.
        destruct (IH st1 Hwf1 Hmem1) as (es & st2 & Hrun2 & Hend & Hp2 & Hall & Hok).
        + rewrite Hinc1, Hq', Hreste, app_nil_r. done.
        + unfold pending. rewrite Hinc1, Hq', Hreste, Ht.
          rewrite Hq1e in Hlen. simpl in *. lia.
        + lia.
        + rewrite Hinc1, Hq', Hreste, Ht, app_nil_r. lia.
        + exists es, st2. split; [done|]. split; [done|]. simpl.
          rewrite Hinc1, Hq', Hreste in Hp2. rewrite Hq1e.
          split; [done|]. split; [constructor; [left; by eexists | done]|].
          constructor; [|done].
          unfold event_clock_ok, int_range, INT_MIN, INT_MAX in *. simpl. lia.
      - (* a plane is ready: it lands *)
        assert (Hcs : servable cur).
        { rewrite <- Hpq in Hsq1. by apply Forall_cons in Hsq1 as [? _]. }
        assert (Hsrest : Forall servable rest).
        { rewrite <- Hpq in Hsq1. by apply Forall_cons in Hsq1 as [_ ?]. }
        pose proof (total_landing_nonneg _ Hsrest) as Hnnrest.
        rewrite <- (total_landing_perm _ _ Hpq) in Htot. simpl in Htot.
        destruct Hcs as (_ & Hcid & Hcsz & Hclt).
        destruct Hcase as [(Hc & _)|[(_ & Hc & _)|[(_ & Hc & _)|(_ & _ & -> & _ & Hq' & Ht)]]];
          [done | lia | lia |].
        destruct (IH st1 Hwf1 Hmem1) as (es & st2 & Hrun2 & Hend & Hp2 & Hall & Hok).
        + rewrite Hinc1, Hq'. by apply Forall_app.
        + unfold pending. rewrite Hinc1, Hq', Ht.
          apply Permutation_length in Hpq. simpl in Hpq. lia.
        + lia.
        + rewrite Hinc1, Hq', Ht, total_landing_app. lia.
        + exists es, st2. split; [done|]. split; [done|]. simpl.
          rewrite Hinc1, Hq' in Hp2. rewrite Hp2, <- Hpq.
          split; [by rewrite Permutation_middle|].
          split; [constructor; [right; by eexists _, _ | done]|].
          constructor; [|done].
          unfold event_clock_ok, int_range, INT_MIN, INT_MAX in *. simpl. lia. }
    destruct Hnext as (es & st2 & Hrun2 & Hend & Hp2 & Hall & Hok).
    exists (ev :: es), st2. rewrite Hstep. simpl. rewrite Hrun2. simpl.
    split; [done|]. split; [done|]. split; [|done].
    rewrite <- Hperm, <- Hp2. unfold landed. simpl. by destruct ev.
Qed.

(** Progress: when every plane is servable (its [id] is not [-1], its size
    is between 0 and 20 and its landing time is not negative) and the
    latest arrival time plus all landing times is an [int], [simulate]
    returns within as many iterations as there are planes plus the latest
    arrival time; every plane lands exactly once, no iteration is a
    deferral, and neither the clock of the loop nor the chart leaves
    [int]. *)
Theorem servable_planes_all_land (incoming : list Plane) (fuel : nat) :
  Forall servable incoming ->
  (length incoming + Z.to_nat (last_arrival incoming) <= fuel)%nat ->
  last_arrival incoming + total_landing incoming <= INT_MAX ->
  exists es rows,
    simulate fuel incoming = Done (es, rows) /\
    Permutation (landed es) incoming /\
    Forall (fun e => (exists t, e = NoPlanes t) \/ exists t p, e = Landing t p) es /\
    Forall event_clock_ok es /\
    Forall row_in_range rows.
Proof.
  intros Hserv Hfuel Hbound.
  assert (Hwf : Forall plane_wf incoming).
  { eapply Forall_impl; [exact Hserv|]. by intros p [? _]. }
  pose proof (last_arrival_nonneg incoming) as Hla.
  destruct (sim_steps_to_end fuel (init incoming) (init_wf _ Hwf) eq_refl)
    as (es & st & Hrun & Hend & Hperm & Hall & Hok).
  - simpl. by rewrite app_nil_r.
  - unfold pending. simpl. rewrite Z.sub_0_r. lia.
  - simpl. lia.
  - simpl. rewrite app_nil_r. lia.
  - simpl in Hperm. rewrite app_nil_r in Hperm.
    destruct (sim_steps_inv fuel (init incoming) (init_wf _ Hwf))
      as (es' & st' & Hrun' & _ & _ & Hg).
    rewrite Hrun in Hrun'. injection Hrun' as <- <-. simpl in Hg.
    exists es, (gantt_rows 0 (st_gantt st)).
    unfold simulate. rewrite Hrun. simpl. rewrite Hend.
    split; [done|]. split; [done|]. split; [done|]. split; [done|].
    rewrite Hg, gantt_of_landed. apply gantt_rows_in_range; [lia | by rewrite Hperm |].
    rewrite (total_landing_perm _ _ Hperm). lia.
Qed.

Lemma servable_planes_all_land_witness :
  exists es rows,
    simulate 9 normalPlanes = Done (es, rows) /\
    Permutation (landed es) normalPlanes /\
    Forall (fun e => (exists t, e = NoPlanes t) \/ exists t p, e = Landing t p) es /\
    Forall event_clock_ok es /\
    Forall row_in_range rows.
Proof.
  apply (servable_planes_all_land normalPlanes 9).
  - repeat constructor; unfold int_range, INT_MIN, INT_MAX; simpl; lia.
  - simpl. lia.
  - unfold INT_MAX. simpl. lia.
Defined.

Lemma sim_steps_after_arrival (n : nat) (st : SimState) (es : list Event)
    (st' : SimState) :
  state_wf st -> st_memory st = replicate 20 0 ->
  Forall (fun p => 0 <= landingTime p) (st_incoming st ++ st_readyQueue st) ->
  Forall (fun p => arrivalTime p <= st_time st) (st_readyQueue st) ->
  sim_steps n st = Done (es, st') -> Forall event_after_arrival es.
Proof.
  revert st es st'. induction n as [|n IH]; intros st es st' Hwf Hmem Hlt Harr; simpl.
  - by intros [= <- <-].
  - destruct (running st); [|by intros [= <- <-]].
    destruct (sim_step_free_pool st Hwf Hmem)
      as (inc' & q1 & cur & rest & ev & st1 & Hmove & Hget & Hshape & Hstep & Hwf1
          & Hmem1 & Hinc1 & Hcase).
    pose proof (move_arrived_perm _ _ _ _ _ Hmove) as Hperm.
    pose proof (move_arrived_filter (st_time st) (st_incoming st) (st_readyQueue st))
      as Hfil.
    rewrite Hmove in Hfil. injection Hfil as Hinc' Hq1.
    assert (Hq1arr : Forall (fun p => arrivalTime p <= st_time st) q1).
    { rewrite Hq1. apply Forall_app. split; [done|].
      apply Forall_forall. intros p Hp. apply list_elem_of_filter in Hp. tauto. }
    assert (Hlt1 : Forall (fun p => 0 <= landingTime p) (inc' ++ q1)) by by rewrite Hperm.
    apply Forall_app in Hlt1 as [Hltinc Hltq1].
    rewrite Hstep. simpl.
    destruct (sim_steps n st1) as [[es1 st2]| |] eqn:Hrec; simpl; try done.
    intros [= <- <-].
    assert (Hreal : id cur <> -1 -> Permutation (cur :: rest) q1).
    { intros Hid. destruct Hshape as [(_ & -> & _)|?]; done. }
    assert (Hrest : Forall (fun p => arrivalTime p <= st_time st) rest /\
                    Forall (fun p => 0 <= landingTime p) rest).
    { destruct Hshape as [(_ & _ & ->)|Hp]; [split; constructor|].
      rewrite <- Hp in Hq1arr, Hltq1.
      apply Forall_cons in Hq1arr as [_ ?]. by apply Forall_cons in Hltq1 as [_ ?]. }
    destruct Hrest as [Hrarr Hrlt].
    assert (Hlater : forall t' l, st_time st <= t' ->
              Forall (fun p => arrivalTime p <= st_time st) l ->
              Forall (fun p => arrivalTime p <= t') l).
    { intros t' l Ht Hl. eapply Forall_impl; [exact Hl|]. simpl. intros; lia. }
    destruct Hcase as [(_ & -> & Hq' & Ht)|[(Hid & _ & -> & Hq' & Ht)|[(Hid & _ & -> & Hq' & Ht)|(Hid & _ & -> & _ & Hq' & Ht)]]].
    + constructor; [done|]. apply (IH st1 es1 st2); try done.
      * rewrite Hinc1, Hq'. by apply Forall_app.
      * rewrite Hq', Ht. apply Hlater; [lia | done].
    + specialize (Hreal Hid). rewrite <- Hreal in Hq1arr, Hltq1.
      apply Forall_cons in Hq1arr as [Hca _]. apply Forall_cons in Hltq1 as [Hcl _].
      constructor; [done|]. apply (IH st1 es1 st2); try done.
      * rewrite Hinc1, Hq'. apply Forall_app. split; [done|].
        apply Forall_app. split; [done | by constructor].
      * rewrite Hq', Ht. apply Hlater; [lia|].
        apply Forall_app. split; [done | by constructor].
    + specialize (Hreal Hid). rewrite <- Hreal in Hq1arr, Hltq1.
      apply Forall_cons in Hq1arr as [Hca _]. apply Forall_cons in Hltq1 as [Hcl _].
      constructor; [done|]. apply (IH st1 es1 st2); try done.
      * rewrite Hinc1, Hq'. apply Forall_app. split; [done|].
        apply Forall_app. split; [done | by constructor].
      * rewrite Hq', Ht. apply Hlater; [lia|].
        apply Forall_app. split; [done | by constructor].
    + specialize (Hreal Hid). rewrite <- Hreal in Hq1arr, Hltq1.
      apply Forall_cons in Hq1arr as [Hca _]. apply Forall_cons in Hltq1 as [Hcl _].
      constructor; [done|]. apply (IH st1 es1 st2); try done.
      * rewrite Hinc1, Hq'. by apply Forall_app.
      * rewrite Hq', Ht. apply Hlater; [lia | done].
Qed.

(** No plane is scheduled before it arrives: when landing times are not
    negative and no clock update of the run has left [int], every plane an
    iteration lands or defers has an [arrivalTime] at or before the time
    that iteration prints. *)
Theorem no_plane_before_its_arrival (incoming : list Plane) (n : nat)
    (es : list Event) (st : SimState) :
  Forall plane_wf incoming ->
  Forall (fun p => 0 <= landingTime p) incoming ->
  sim_steps n (init incoming) = Done (es, st) ->
  Forall event_clock_ok es ->
  Forall event_after_arrival es.
Proof.
  intros Hwf Hlt Hrun _. revert Hrun.
  apply sim_steps_after_arrival; [by apply init_wf | done | | constructor].
  simpl. by rewrite app_nil_r.
Qed.

Lemma no_plane_before_its_arrival_witness :
  Forall event_after_arrival
    [NoPlanes 0; NoPlanes 1; Landing 2 (Plane5 1 2 5 4 3)].
Proof.
  apply (no_plane_before_its_arrival [Plane5 1 2 5 4 3] 3 _
           (mkState [] [] (MemoryManager 20) 5 [(1, 3)])).
  - repeat constructor; unfold int_range, INT_MIN, INT_MAX; simpl; lia.
  - repeat constructor. simpl. lia.
  - reflexivity.
  - repeat constructor; unfold int_range, INT_MIN, INT_MAX; simpl; lia.
Defined.

Lemma sim_steps_blocked (p : Plane) (n : nat) (st : SimState) :
  id p <> -1 -> 20 < size p ->
  state_wf st -> st_memory st = replicate 20 0 ->
  p ∈ st_incoming st ++ st_readyQueue st ->
  arrivalTime p <= st_time st ->
  (forall x, x ∈ st_incoming st ++ st_readyQueue st -> x = p \/ precedes p x) ->
  exists es st',
    sim_steps n st = Done (es, st') /\ length es = n /\
    Forall (fun e => exists t, e = Unsafe t p) es /\
    Permutation (st_incoming st' ++ st_readyQueue st')
                (st_incoming st ++ st_readyQueue st).
Proof.
  intros Hid Hbig. revert st.
  induction n as [|n IH]; intros st Hwf Hmem Hin Harr Hfirst; simpl.
  - exists [], st. split; [done|]. split; [done|]. split; [constructor | done].
  - rewrite (running_elem st p Hin).
    destruct (sim_step_free_pool st Hwf Hmem)
      as (inc' & q1 & cur & rest & ev & st1 & Hmove & Hget & Hshape & Hstep & Hwf1
          & Hmem1 & Hinc1 & Hcase).
    pose proof (move_arrived_perm _ _ _ _ _ Hmove) as Hperm.
    pose proof (move_arrived_filter (st_time st) (st_incoming st) (st_readyQueue st))
      as Hfil.
    rewrite Hmove in Hfil. injection Hfil as Hinc' Hq1.
    assert (Hpq1 : p ∈ q1).
    { rewrite <- Hperm in Hin. apply elem_of_app in Hin as [Hin|Hin]; [|done].
      rewrite Hinc' in Hin. apply list_elem_of_filter in Hin. lia. }
    assert (Hne : q1 <> []) by (intros ->; by apply elem_of_nil in Hpq1).
    destruct (getNextPlane_with_min sort sort_meets_contract q1 Hne)
      as (cur' & rest' & Hget' & Hpq & Hmin).
    unfold getNextPlane in Hget. rewrite Hget' in Hget. injection Hget as -> ->.
    assert (cur = p) as ->.
    { assert (Hc : cur ∈ st_incoming st ++ st_readyQueue st).
      { rewrite <- Hperm. apply elem_of_app. right. rewrite <- Hpq. by left. }
      destruct (Hfirst cur Hc) as [?|Hprec]; [done|].
      by destruct (Hmin p Hpq1). }
    destruct Hcase as [(Hc & _)|[(_ & _ & -> & Hq' & Ht)|[(_ & Hc & _)|(_ & Hc & _)]]];
      [done | | lia | lia].
    assert (Hp1 : Permutation (st_incoming st1 ++ st_readyQueue st1)
                              (st_incoming st ++ st_readyQueue st)).
    { rewrite Hinc1, Hq', <- Hperm, <- Hpq.
      by rewrite <- Permutation_cons_append. }
    destruct (IH st1 Hwf1 Hmem1) as (es & st2 & Hrun & Hlen & Hall & Hp2).
    + by rewrite Hp1.
    + lia.
    + intros x Hx. apply Hfirst. by rewrite <- Hp1.
    + exists (Unsafe (st_time st) p :: es), st2. rewrite Hstep. simpl.
      rewrite Hrun. simpl. split; [done|]. split; [by rewrite Hlen|].
      split; [constructor; [by eexists | done] | by rewrite Hp2].
Qed.

(** Head-of-line blocking: an oversized plane that has arrived at time 0
    and goes before every other plane is extracted, found unsafe and put
    back on every iteration; no other plane is ever considered, whether it
    would fit or not, and nothing ever lands. *)
Theorem oversized_first_plane_blocks_all (incoming : list Plane) (p : Plane)
    (n : nat) :
  Forall plane_wf incoming -> p ∈ incoming ->
  id p <> -1 -> 20 < size p -> arrivalTime p <= 0 ->
  (forall x, x ∈ incoming -> x = p \/ precedes p x) ->
  exists es st,
    sim_steps n (init incoming) = Done (es, st) /\
    length es = n /\
    Forall (fun e => exists t, e = Unsafe t p) es /\
    landed es = [].
Proof.
  intros Hwf Hin Hid Hbig Harr Hfirst.
  destruct (sim_steps_blocked p n (init incoming) Hid Hbig (init_wf _ Hwf) eq_refl)
    as (es & st & Hrun & Hlen & Hall & Hperm); simpl; rewrite ?app_nil_r; try done.
  exists es, st. split; [done|]. split; [done|]. split; [done|].
  clear -Hall. induction Hall as [|e es [t ->] _ IH]; done.
Qed.

Lemma oversized_first_plane_blocks_all_witness :
  exists es st,
    sim_steps 4 (init [Plane5 1 0 5 4 3; mkPlane 7 0 3 25 3 true]) = Done (es, st) /\
    length es = 4%nat /\
    Forall (fun e => exists t, e = Unsafe t (mkPlane 7 0 3 25 3 true)) es /\
    landed es = [].
Proof.
  apply (oversized_first_plane_blocks_all
           [Plane5 1 0 5 4 3; mkPlane 7 0 3 25 3 true] (mkPlane 7 0 3 25 3 true) 4).
  - repeat constructor; unfold int_range, INT_MIN, INT_MAX; simpl; lia.
  - right. left.
  - simpl. lia.
  - simpl. lia.
  - simpl. lia.
  - intros x Hx.
    apply elem_of_cons in Hx as [->|Hx]; [right; left; by split|].
    apply elem_of_cons in Hx as [->|Hx]; [by left|].
    by apply elem_of_nil in Hx.
Defined.

(* ===================================================================== *)
(** * Allocations side by side *)
(* ===================================================================== *)

(** [allocate] never resizes the airspace and never touches an occupied
    cell: whatever the size asked for, every cell either keeps its value
    or was free and is now marked. *)
Theorem allocate_only_marks_free_cells (memory : list Z) (d s : Z)
    (memory' : list Z) :
  allocate memory d = Done (s, memory') ->
  length memory' = length memory /\
  forall k : nat,
    memory' !! k = memory !! k \/
    (memory !! k = Some 0 /\ memory' !! k = Some 1 /\ s <= Z.of_nat k < s + d).
Proof.
  intros Halloc.
  apply allocate_Done_inv in Halloc as [[_ ->]|(_ & Hfree & Hfill)].
  - split; [done|]. intros k. by left.
  - destruct (fill_run memory 1 s d Hfree) as (m & Hm & Hlen & Hget).
    rewrite Hm in Hfill. injection Hfill as <-. split; [done|].
    intros k. rewrite Hget. case_bool_decide as Hk; [|by left].
    right. split; [|done].
    destruct Hfree as [_ Hfree]. specialize (Hfree (Z.of_nat k - s) ltac:(lia)).
    by replace (Z.to_nat (s + (Z.of_nat k - s))) with k in Hfree by lia.
Qed.

Lemma allocate_only_marks_free_cells_witness :
  length [0; 1; 0; 0; 1; 1; 1; 1] = length [0; 1; 0; 0; 1; 0; 0; 0] /\
  forall k : nat,
    [0; 1; 0; 0; 1; 1; 1; 1] !! k = [0; 1; 0; 0; 1; 0; 0; 0] !! k \/
    ([0; 1; 0; 0; 1; 0; 0; 0] !! k = Some 0 /\
     [0; 1; 0; 0; 1; 1; 1; 1] !! k = Some 1 /\ 5 <= Z.of_nat k < 5 + 3).
Proof.
  apply (allocate_only_marks_free_cells [0; 1; 0; 0; 1; 0; 0; 0] 3 5
           [0; 1; 0; 0; 1; 1; 1; 1]).
  reflexivity.
Defined.

(** No double allocation: two successful allocations of positive size, one
    after the other with no release in between, are given ranges that do
    not overlap. *)
Theorem allocations_do_not_overlap (memory : list Z) (d1 s1 : Z)
    (memory1 : list Z) (d2 s2 : Z) (memory2 : list Z) :
  0 < d1 -> 0 < d2 ->
  allocate memory d1 = Done (s1, memory1) -> s1 <> -1 ->
  allocate memory1 d2 = Done (s2, memory2) -> s2 <> -1 ->
  s1 + d1 <= s2 \/ s2 + d2 <= s1.
Proof.
  intros Hd1 Hd2 Ha1 Hs1 Ha2 Hs2.
  apply allocate_Done_inv in Ha1 as [[? _]|(_ & Hfree1 & Hfill1)]; [done|].
  apply allocate_Done_inv in Ha2 as [[? _]|(_ & Hfree2 & _)]; [done|].
  destruct (fill_run memory 1 s1 d1 Hfree1) as (m & Hm & _ & Hget).
  rewrite Hm in Hfill1. injection Hfill1 as <-.
  destruct Hfree1 as [Hs10 _]. destruct Hfree2 as [Hs20 Hfree2].
  destruct (Z.le_gt_cases (s1 + d1) s2); [by left|].
  destruct (Z.le_gt_cases (s2 + d2) s1); [by right|].
  exfalso. set (k := Z.max s1 s2).
  specialize (Hfree2 (k - s2) ltac:(lia)).
  specialize (Hget (Z.to_nat k)).
  replace (s2 + (k - s2)) with k in Hfree2 by lia.
  rewrite bool_decide_eq_true_2 in Hget by lia. congruence.
Qed.

Lemma allocations_do_not_overlap_witness : 5 + 3 <= 2 \/ 2 + 2 <= 5.
Proof.
  apply (allocations_do_not_overlap [0; 1; 0; 0; 1; 0; 0; 0] 3 5
           [0; 1; 0; 0; 1; 1; 1; 1] 2 2 [0; 1; 1; 1; 1; 1; 1; 1]).
  - lia.
  - lia.
  - reflexivity.
  - lia.
  - reflexivity.
  - lia.
Defined.
